(** * aiohttp_sse_client: a shallow embedding of [aiohttp_sse_client.py]

    The module implements a client for Server-Sent Events: [EventSource]
    issues a GET request, reads the response body line by line, feeds each
    line to a field parser and dispatches a [MessageEvent] on every blank
    line.

    Python text ([str]) is embedded as [string]: the UTF-8 bytes of the text.
    The characters the parser looks at (LF, CR, colon, space) are ASCII, and
    an ASCII byte never occurs inside a multi-byte UTF-8 sequence, so
    stripping, splitting and comparing act on the bytes exactly as they act
    on the code points. *)

From Stdlib Require Import ZArith Ascii String List Bool Lia.
From stdpp Require Import base option strings gmap list.

Local Open Scope string_scope.
Local Open Scope Z_scope.

(* ===================================================================== *)
(** ** Characters and the [str] methods the module calls                  *)
(* ===================================================================== *)

Module Str.

Definition LF : ascii := "010"%char.
Definition CR : ascii := "013"%char.
Definition COLON : ascii := ":"%char.
Definition SPACE : ascii := " "%char.

(** The one-character strings ['\n'] and ['\r']. *)
Definition NL : string := String LF "".
Definition RET : string := String CR "".

Definition is_empty (s : string) : bool :=
  match s with
  | EmptyString => true
  | String _ _ => false
  end.

(** [s.rstrip(c)] for a one-character argument: every trailing [c] goes. *)
Fixpoint rstrip (c : ascii) (s : string) : string :=
  match s with
  | EmptyString => EmptyString
  | String a s' =>
      let r := rstrip c s' in
      if Ascii.eqb a c && is_empty r then EmptyString else String a r
  end.

(** [s.lstrip(c)] for a one-character argument: every leading [c] goes. *)
Fixpoint lstrip (c : ascii) (s : string) : string :=
  match s with
  | EmptyString => EmptyString
  | String a s' => if Ascii.eqb a c then lstrip c s' else s
  end.

(** [c in s]. *)
Fixpoint contains (c : ascii) (s : string) : bool :=
  match s with
  | EmptyString => false
  | String a s' => Ascii.eqb a c || contains c s'
  end.

(** The test [c in s] followed by [s.split(c, 1)]: the text before the
    first [c] and the text after it; [None] when [c] does not occur. *)
Fixpoint split1 (c : ascii) (s : string) : option (string * string) :=
  match s with
  | EmptyString => None
  | String a s' =>
      if Ascii.eqb a c then Some (EmptyString, s')
      else match split1 c s' with
           | Some (before, after) => Some (String a before, after)
           | None => None
           end
  end.

(** [s[0] == c]. *)
Definition starts_with (c : ascii) (s : string) : bool :=
  match s with
  | EmptyString => false
  | String a _ => Ascii.eqb a c
  end.

(** The last character of [s], when there is one. *)
Fixpoint last_char (s : string) : option ascii :=
  match s with
  | EmptyString => None
  | String a EmptyString => Some a
  | String _ s' => last_char s'
  end.

(** [n] copies of [c]. *)
Fixpoint replicate (n : nat) (c : ascii) : string :=
  match n with
  | O => EmptyString
  | S n' => String c (replicate n' c)
  end.

(** The removal of one final [c], if the text ends in [c]: what the event
    stream standard prescribes for the data buffer on dispatch. *)
Fixpoint chop (c : ascii) (s : string) : string :=
  match s with
  | EmptyString => EmptyString
  | String a EmptyString => if Ascii.eqb a c then EmptyString else s
  | String a s' => String a (chop c s')
  end.

(** The removal of one leading [c], if the text starts with [c]: what the
    standard prescribes for a field value. *)
Definition behead (c : ascii) (s : string) : string :=
  match s with
  | EmptyString => EmptyString
  | String a s' => if Ascii.eqb a c then s' else s
  end.

End Str.

(* ===================================================================== *)
(** ** Exceptions, [int], [timedelta] and [bytes.decode]                  *)
(* ===================================================================== *)

Inductive exn : Type :=
  | ValueError
  | KeyError
  | TypeError
  | OverflowError
  | UnicodeDecodeError
  | ClientError.

(** The outcome of a call that can raise. *)
Definition result (A : Type) : Type := (exn + A)%type.

Module Py.

(** The blanks [int] skips at both ends: tab, line feed, vertical tab,
    form feed, carriage return and space. *)
Definition is_space (c : ascii) : bool :=
  let n := N_of_ascii c in
  ((9 <=? n) && (n <=? 13) || (n =? 32))%N.

Definition digit_of (c : ascii) : option Z :=
  let n := N_of_ascii c in
  if ((48 <=? n) && (n <=? 57))%N then Some (Z.of_N n - 48) else None.

Fixpoint lstrip_space (s : string) : string :=
  match s with
  | EmptyString => EmptyString
  | String a s' => if is_space a then lstrip_space s' else s
  end.

Fixpoint rstrip_space (s : string) : string :=
  match s with
  | EmptyString => EmptyString
  | String a s' =>
      let r := rstrip_space s' in
      if is_space a && Str.is_empty r then EmptyString else String a r
  end.

(** Decimal digits, a single underscore allowed between two digits.
    [after_digit] tells whether the previous character was a digit. *)
Fixpoint digits (s : string) (acc : Z) (after_digit : bool) : option Z :=
  match s with
  | EmptyString => if after_digit then Some acc else None
  | String c r =>
      match digit_of c with
      | Some d => digits r (10 * acc + d) true
      | None =>
          if Ascii.eqb c "_"%char && after_digit then digits r acc false
          else None
      end
  end.

(** [int(s)] on text: surrounding blanks, an optional sign, decimal digits.
    [None] stands for [ValueError]. Digits and blanks outside ASCII, which
    Python accepts too, are not covered: text holding them answers [None];
    nor is the cap on the number of digits that later versions of Python
    put on the conversion. *)
Definition int (s : string) : option Z :=
  match rstrip_space (lstrip_space s) with
  | EmptyString => None
  | String c r =>
      if Ascii.eqb c "-"%char then option_map Z.opp (digits r 0 false)
      else if Ascii.eqb c "+"%char then digits r 0 false
      else digits (String c r) 0 false
  end.

(** A [timedelta] is held as its total number of microseconds. *)
Definition US_PER_MS : Z := 1000.
Definition US_PER_DAY : Z := 86400000000.
Definition MAX_DELTA_DAYS : Z := 999999999.

(** [timedelta(milliseconds=n)]: the value is normalised to days, seconds
    and microseconds, and [OverflowError] is raised when the magnitude of
    the days exceeds 999999999. *)
Definition timedelta_milliseconds (n : Z) : result Z :=
  let us := n * US_PER_MS in
  if Z.abs (us / US_PER_DAY) <=? MAX_DELTA_DAYS then inr us
  else inl OverflowError.

(** [timedelta(seconds=n)] for a small literal. *)
Definition timedelta_seconds (n : Z) : Z := n * 1000000.

(** Well-formedness of UTF-8, byte by byte (RFC 3629: no overlong forms, no
    surrogates, nothing above U+10FFFF). [pending] lists the ranges the
    next continuation bytes must fall in. *)
Definition in_range (lo hi : N) (c : ascii) : bool :=
  let n := N_of_ascii c in ((lo <=? n) && (n <=? hi))%N.

Definition utf8_lead (c : ascii) : option (list (N * N)) :=
  let n := N_of_ascii c in
  if (n <=? 127)%N then Some []
  else if in_range 194 223 c then Some [(128, 191)]%N
  else if (n =? 224)%N then Some [(160, 191); (128, 191)]%N
  else if in_range 225 236 c then Some [(128, 191); (128, 191)]%N
  else if (n =? 237)%N then Some [(128, 159); (128, 191)]%N
  else if in_range 238 239 c then Some [(128, 191); (128, 191)]%N
  else if (n =? 240)%N then Some [(144, 191); (128, 191); (128, 191)]%N
  else if in_range 241 243 c then Some [(128, 191); (128, 191); (128, 191)]%N
  else if (n =? 244)%N then Some [(128, 143); (128, 191); (128, 191)]%N
  else None.

Fixpoint utf8_ok (s : string) (pending : list (N * N)) : bool :=
  match s with
  | EmptyString => match pending with [] => true | _ => false end
  | String c r =>
      match pending with
      | [] => match utf8_lead c with
              | Some p => utf8_ok r p
              | None => false
              end
      | (lo, hi) :: p => in_range lo hi c && utf8_ok r p
      end
  end.

(** [b.decode('utf8')]. *)
Definition decode_utf8 (b : string) : result string :=
  if utf8_ok b [] then inr b else inl UnicodeDecodeError.

End Py.

(* ===================================================================== *)
(** ** Data model                                                         *)
(* ===================================================================== *)

Definition READY_STATE_CONNECTING : Z := 0.
Definition READY_STATE_OPEN : Z := 1.
Definition READY_STATE_CLOSED : Z := 2.

Definition DEFAULT_RECONNECTION_TIME : Z := Py.timedelta_seconds 5.

Definition CONTENT_TYPE_EVENT_STREAM : string := "text/event-stream".

(** The header names of [aiohttp.hdrs] the module refers to. *)
Module hdrs.
Definition ACCEPT : string := "Accept".
Definition CACHE_CONTROL : string := "Cache-Control".
End hdrs.

(** The frozen [MessageEvent] class. [type] is [None] or a text,
    [origin] is [None] until a connection was made. *)
Record MessageEvent : Type := mkMessageEvent {
  type : option string;
  message : string;
  data : string;
  origin : option string;
  last_event_id : string
}.

(** The Python values that occur as keyword arguments and options. A
    mapping of headers is a finite map from header names to values. *)
Inductive pyval : Type :=
  | VNone
  | VBool (b : bool)
  | VInt (n : Z)
  | VStr (s : string)
  | VDict (d : gmap string string).

(** What [aiohttp] hands back for a request: the status, the lines the
    body reader still has to deliver (each as [readline] returns it, that
    is with its final LF when it has one), and the origin of the URL the
    response came from. *)
Record ClientResponse : Type := mkClientResponse {
  status : Z;
  content : list string;
  real_url_origin : string
}.

Definition set_content (c : list string) (r : ClientResponse) : ClientResponse :=
  mkClientResponse (status r) c (real_url_origin r).

(** The attributes of an [EventSource] instance. *)
Record EventSource : Type := mkEventSource {
  _url : string;
  _with_credentials : pyval;
  _ready_state : Z;
  _need_close_session : bool;
  _reconnection_time : Z;
  _last_event_id : string;
  _kwargs : gmap string pyval;
  _event_id : string;
  _event_type : string;
  _event_data : string;
  _origin : option string;
  _response : option ClientResponse
}.

Definition set_ready_state (v : Z) (es : EventSource) : EventSource :=
  mkEventSource (_url es) (_with_credentials es) v (_need_close_session es)
    (_reconnection_time es) (_last_event_id es) (_kwargs es) (_event_id es)
    (_event_type es) (_event_data es) (_origin es) (_response es).

Definition set_reconnection_time (v : Z) (es : EventSource) : EventSource :=
  mkEventSource (_url es) (_with_credentials es) (_ready_state es)
    (_need_close_session es) v (_last_event_id es) (_kwargs es) (_event_id es)
    (_event_type es) (_event_data es) (_origin es) (_response es).

Definition set_last_event_id (v : string) (es : EventSource) : EventSource :=
  mkEventSource (_url es) (_with_credentials es) (_ready_state es)
    (_need_close_session es) (_reconnection_time es) v (_kwargs es)
    (_event_id es) (_event_type es) (_event_data es) (_origin es)
    (_response es).

Definition set_kwargs (v : gmap string pyval) (es : EventSource) : EventSource :=
  mkEventSource (_url es) (_with_credentials es) (_ready_state es)
    (_need_close_session es) (_reconnection_time es) (_last_event_id es) v
    (_event_id es) (_event_type es) (_event_data es) (_origin es)
    (_response es).

Definition set_event_id (v : string) (es : EventSource) : EventSource :=
  mkEventSource (_url es) (_with_credentials es) (_ready_state es)
    (_need_close_session es) (_reconnection_time es) (_last_event_id es)
    (_kwargs es) v (_event_type es) (_event_data es) (_origin es)
    (_response es).

Definition set_event_type (v : string) (es : EventSource) : EventSource :=
  mkEventSource (_url es) (_with_credentials es) (_ready_state es)
    (_need_close_session es) (_reconnection_time es) (_last_event_id es)
    (_kwargs es) (_event_id es) v (_event_data es) (_origin es)
    (_response es).

Definition set_event_data (v : string) (es : EventSource) : EventSource :=
  mkEventSource (_url es) (_with_credentials es) (_ready_state es)
    (_need_close_session es) (_reconnection_time es) (_last_event_id es)
    (_kwargs es) (_event_id es) (_event_type es) v (_origin es)
    (_response es).

Definition set_origin (v : option string) (es : EventSource) : EventSource :=
  mkEventSource (_url es) (_with_credentials es) (_ready_state es)
    (_need_close_session es) (_reconnection_time es) (_last_event_id es)
    (_kwargs es) (_event_id es) (_event_type es) (_event_data es) v
    (_response es).

Definition set_response (v : option ClientResponse) (es : EventSource) : EventSource :=
  mkEventSource (_url es) (_with_credentials es) (_ready_state es)
    (_need_close_session es) (_reconnection_time es) (_last_event_id es)
    (_kwargs es) (_event_id es) (_event_type es) (_event_data es)
    (_origin es) v.

(** [EventSource.__init__]. [option] is the settings mapping, [session] says
    whether the caller supplied a session, [kwargs] holds the extra keyword
    arguments. An empty [kwargs] is falsy, so [kwargs or {...}] installs
    the default mapping then and only then. The argument [url] stands for
    the value [URL(url)] that the code stores: what [yarl] makes of the
    text the caller wrote (it may rewrite it, or raise before anything is
    stored) is outside the embedding, and nothing below says what that
    value is. *)
Definition __init__ (url : string) (option : option (gmap string pyval))
    (reconnection_time : Z) (session : bool) (kwargs : gmap string pyval)
    : EventSource :=
  {| _url := url;
     _with_credentials :=
       match option with
       | Some o => default (VBool false) (o !! "with_credentials")
       | None => VBool false
       end;
     _ready_state := READY_STATE_CONNECTING;
     _need_close_session := negb session;
     _reconnection_time := reconnection_time;
     _last_event_id := "";
     _kwargs :=
       if decide (kwargs = ∅) then {[ "headers" := VDict ∅ ]} else kwargs;
     _event_id := "";
     _event_type := "";
     _event_data := "";
     _origin := None;
     _response := None |}.

(* ===================================================================== *)
(** ** Field parser and dispatch (the synchronous methods)                *)
(* ===================================================================== *)

(** [EventSource._dispatch_event]: the event, or [None], and the instance
    after the call. *)
Definition _dispatch_event (es : EventSource) : option MessageEvent * EventSource :=
  let es := set_last_event_id (_event_id es) es in
  if String.eqb (_event_data es) "" then
    (None, set_event_type "" es)
  else
    let es := set_event_data (Str.rstrip Str.LF (_event_data es)) es in
    let message :=
      {| type := if String.eqb (_event_type es) "" then None
                 else Some (_event_type es);
         message := _event_type es;
         data := _event_data es;
         origin := _origin es;
         last_event_id := _last_event_id es |} in
    let es := set_event_type "" es in
    let es := set_event_data "" es in
    (Some message, es).

(** [EventSource._process_field]. Only [ValueError] is caught around the
    [retry] conversion; anything else [timedelta] raises leaves the
    method. *)
Definition _process_field (field_name field_value : string) (es : EventSource)
    : result unit * EventSource :=
  if String.eqb field_name "event" then
    (inr tt, set_event_type field_value es)
  else if String.eqb field_name "data" then
    let es := set_event_data (_event_data es +:+ field_value) es in
    (inr tt, set_event_data (_event_data es +:+ Str.NL) es)
  else if String.eqb field_name "id" then
    (inr tt, set_event_id field_value es)
  else if String.eqb field_name "retry" then
    match Py.int field_value with
    | Some retry_in_ms =>
        match Py.timedelta_milliseconds retry_in_ms with
        | inr t => (inr tt, set_reconnection_time t es)
        | inl ValueError => (inr tt, es)
        | inl e => (inl e, es)
        end
    | None => (inr tt, es)
    end
  else (inr tt, es).

(* ===================================================================== *)
(** ** The HTTP collaborator and the asynchronous methods                 *)
(* ===================================================================== *)

(** Modelled, not embedded: the body reader is [aiohttp]'s [StreamReader],
    whose code is not part of the module. The model follows the note in
    the source, "async for ... in StreamReader only split line by \n": the
    body is cut after every LF and nowhere else, and a last piece without
    LF is delivered at the end of the stream. The cap the reader puts on
    the length of a line and the errors it raises are left out. It serves
    to build the lines of a response from a body in the examples; the
    statements about the loop take the delivered lines as they come. *)
Fixpoint readlines (body : string) : list string :=
  match body with
  | EmptyString => []
  | String c rest =>
      if Ascii.eqb c Str.LF then String c EmptyString :: readlines rest
      else match readlines rest with
           | [] => [String c EmptyString]
           | l :: ls => String c l :: ls
           end
  end.

(** What is outside the program. [script] holds the outcomes of the GET
    requests to come (a response, or the exception the transport raises),
    [requests] the requests issued so far with their keyword arguments,
    [sleeps] the waits performed so far. *)
Record World : Type := mkWorld {
  script : list (result ClientResponse);
  requests : list (string * gmap string pyval);
  sleeps : list Z
}.

(** [session.get(url, **kwargs)]: the request is recorded and the next
    scripted outcome is returned; with nothing scripted the transport
    fails. *)
Definition session_get (url : string) (kwargs : gmap string pyval) (w : World)
    : result ClientResponse * World :=
  let log := (requests w ++ [(url, kwargs)])%list in
  match script w with
  | [] => (inl ClientError, mkWorld [] log (sleeps w))
  | r :: rs => (r, mkWorld rs log (sleeps w))
  end.

(** [headers[name] = value]: an assignment into a mapping; any other value
    does not support item assignment. *)
Definition setitem (headers : pyval) (name value : string) : result pyval :=
  match headers with
  | VDict d => inr (VDict (<[name := value]> d))
  | _ => inl TypeError
  end.

(** [EventSource._connected]. *)
Definition _connected (es : EventSource) : EventSource :=
  if negb (_ready_state es =? READY_STATE_CLOSED)
  then set_ready_state READY_STATE_OPEN es
  else es.

(** [EventSource._connect]. The mapping under ['headers'] is the object
    held in [_kwargs], so the three assignments are seen through
    [_kwargs] when the request is issued and afterwards. *)
Definition _connect (es : EventSource) (w : World)
    : result unit * EventSource * World :=
  match _kwargs es !! "headers" with
  | None => (inl KeyError, es, w)
  | Some headers =>
      match setitem headers hdrs.ACCEPT CONTENT_TYPE_EVENT_STREAM with
      | inl e => (inl e, es, w)
      | inr headers =>
          match setitem headers "Last-Event_ID" (_last_event_id es) with
          | inl e => (inl e, es, w)
          | inr headers =>
              match setitem headers hdrs.CACHE_CONTROL "no-cache" with
              | inl e => (inl e, es, w)
              | inr headers =>
                  let es := set_kwargs (<["headers" := headers]> (_kwargs es)) es in
                  match session_get (_url es) (_kwargs es) w with
                  | (inl e, w) => (inl e, es, w)
                  | (inr response, w) =>
                      if 400 <=? status response then (inr tt, es, w)
                      else
                        let es := _connected es in
                        let es := set_response (Some response) es in
                        let es := set_origin (Some (real_url_origin response)) es in
                        (inr tt, es, w)
                  end
              end
          end
      end
  end.

(** [EventSource.__aenter__]: connect, then hand the instance back. *)
Definition __aenter__ (es : EventSource) (w : World)
    : result unit * EventSource * World :=
  _connect es w.

(** The [async for] loop of [__anext__] over the lines the reader
    delivers. It answers the outcome, the lines not yet read and the
    instance. Running out of lines ends the loop, and the method then
    returns [None]. The lines are those the reader did deliver: an
    exception raised by the reader itself while waiting for a line is not
    in the embedding. *)
Fixpoint anext_loop (lines : list string) (es : EventSource)
    : result (option MessageEvent) * list string * EventSource :=
  match lines with
  | [] => (inr None, [], es)
  | line_in_bytes :: rest =>
      match Py.decode_utf8 line_in_bytes with
      | inl e => (inl e, rest, es)
      | inr line =>
          let line := Str.rstrip Str.CR (Str.rstrip Str.LF line) in
          if String.eqb line "" then
            match _dispatch_event es with
            | (Some event, es) => (inr (Some event), rest, es)
            | (None, es) => anext_loop rest es
            end
          else if Str.starts_with Str.COLON line then
            anext_loop rest es
          else
            match Str.split1 Str.COLON line with
            | Some (field_name, after) =>
                let field_value := Str.lstrip Str.SPACE after in
                match _process_field field_name field_value es with
                | (inl e, es) => (inl e, rest, es)
                | (inr _, es) => anext_loop rest es
                end
            | None =>
                match _process_field line "" es with
                | (inl e, es) => (inl e, rest, es)
                | (inr _, es) => anext_loop rest es
                end
            end
      end
  end.

(** [EventSource.__anext__]. No request is issued and no wait is made in
    it, so the world comes back as it went in. *)
Definition __anext__ (es : EventSource) (w : World)
    : result (option MessageEvent) * EventSource * World :=
  match _response es with
  | None => (inl ValueError, es, w)
  | Some response =>
      let '(r, rest, es) := anext_loop (content response) es in
      (r, set_response (Some (set_content rest response)) es, w)
  end.

(* ===================================================================== *)
(** ** Vocabulary of the statements                                       *)
(* ===================================================================== *)

(** The lines the loop of [__anext__] works on for a body, decoding
    apart: the pieces of [readlines] after [rstrip('\n').rstrip('\r')]. *)
Definition logical_lines (body : string) : list string :=
  map (fun raw => Str.rstrip Str.CR (Str.rstrip Str.LF raw)) (readlines body).

(** The field name [__anext__] hands to [_process_field] for a line the
    reader delivered; [None] when the line leads to no such call (it is
    blank, a comment, or does not decode). *)
Definition field_name_of (line_in_bytes : string) : option string :=
  match Py.decode_utf8 line_in_bytes with
  | inl _ => None
  | inr line =>
      let line := Str.rstrip Str.CR (Str.rstrip Str.LF line) in
      if String.eqb line "" then None
      else if Str.starts_with Str.COLON line then None
      else match Str.split1 Str.COLON line with
           | Some (field_name, _) => Some field_name
           | None => Some line
           end
  end.

(** A world in which nothing happened yet and whose server answers the
    first request with status 200 and [body]. *)
Definition served (body : string) : World :=
  mkWorld [inr (mkClientResponse 200 (readlines body) "http://example.org")] [] [].

(** [EventSource('http://example.org/sse')]. *)
Definition fresh : EventSource :=
  __init__ "http://example.org/sse" None DEFAULT_RECONNECTION_TIME false ∅.

(** That instance after its [_connect] to the server of [served body],
    and the world then. *)
Definition connected (body : string) : EventSource * World :=
  let '(_, es, w) := _connect fresh (served body) in (es, w).

(** The events a consumer gets from [n] successive calls of [__anext__],
    a [None] standing for a call that returned no event, and the
    exception that ended the calls, if any. *)
Fixpoint consume (n : nat) (es : EventSource) (w : World)
    : list (option MessageEvent) * option exn * EventSource * World :=
  match n with
  | O => ([], None, es, w)
  | S n' =>
      match __anext__ es w with
      | (inl e, es, w) => ([], Some e, es, w)
      | (inr ev, es, w) =>
          let '(evs, e, es, w) := consume n' es w in (ev :: evs, e, es, w)
      end
  end.

(** The header mappings of the requests issued so far, one per request
    whose keyword arguments hold a mapping under ['headers']. *)
Definition headers_sent (w : World) : list (gmap string string) :=
  omap (fun '(_, kwargs) =>
          match kwargs !! "headers" with
          | Some (VDict h) => Some h
          | _ => None
          end) (requests w).

(** The pieces of a list of texts put together again. *)
Definition glue (pieces : list string) : string :=
  fold_right String.append EmptyString pieces.

(** The instance after a run of [data] fields with the given values. *)
Definition after_data (values : list string) (es : EventSource) : EventSource :=
  fold_left (fun es v => snd (_process_field "data" v es)) values es.

(** A value as a server writes it after [data: ]: well-formed UTF-8
    without LF, not ending in CR and not starting with a space. *)
Definition plain (v : string) : Prop :=
  Py.utf8_ok v [] = true /\ Str.contains Str.LF v = false /\
  Str.last_char v <> Some Str.CR /\ Str.starts_with Str.SPACE v = false.

(** The lines of one block that holds a [data] field per value, with the
    blank line that ends it. *)
Definition data_block (values : list string) : list string :=
  (map (fun v => "data: " +:+ v +:+ Str.NL) values ++ [Str.NL])%list.

(** One call of a method of the instance, as far as the instance is
    concerned; the states an instance passes through are those related
    to its initial state by a chain of such calls. *)
Inductive call : EventSource -> EventSource -> Prop :=
  | call_connect es w : call es (snd (fst (_connect es w)))
  | call_aenter es w : call es (snd (fst (__aenter__ es w)))
  | call_anext es w : call es (snd (fst (__anext__ es w)))
  | call_dispatch_event es : call es (snd (_dispatch_event es))
  | call_process_field n v es : call es (snd (_process_field n v es)).

Definition reaches (es0 es : EventSource) : Prop := rtc call es0 es.

Module Spec.

(** Written after the specification, for comparison with the code. *)

(** "splits it into logical lines (terminated by CR, LF, or CRLF)":
    [cur] is the line being read. *)
Fixpoint lines_from (body : string) (cur : string) : list string :=
  match body with
  | EmptyString => if Str.is_empty cur then [] else [cur]
  | String c rest =>
      if Ascii.eqb c Str.LF then cur :: lines_from rest EmptyString
      else if Ascii.eqb c Str.CR then
        match rest with
        | String d rest' =>
            if Ascii.eqb d Str.LF then cur :: lines_from rest' EmptyString
            else cur :: lines_from rest EmptyString
        | EmptyString => [cur]
        end
      else lines_from rest (cur +:+ String c EmptyString)
  end.

Definition lines (body : string) : list string := lines_from body EmptyString.

(** "the concatenation of all data field values joined by \n minus exactly
    one trailing \n": every value is followed by LF, the pieces are
    concatenated and one final LF is taken away. *)
Fixpoint data_buffer (values : list string) : string :=
  match values with
  | [] => EmptyString
  | v :: vs => (v +:+ Str.NL) +:+ data_buffer vs
  end.

Definition event_data (values : list string) : string :=
  Str.chop Str.LF (data_buffer values).

(** "field value = substring after [the first colon] with exactly one
    leading space stripped if present". *)
Definition field_value (after : string) : string := Str.behead Str.SPACE after.

(** "Last-Event-ID: <lastEventId> only if lastEventId is non-empty",
    besides the two headers sent on every request. *)
Definition request_headers (last_event_id : string) : gmap string string :=
  let h := {[ "Accept" := "text/event-stream"; "Cache-Control" := "no-cache" ]} in
  if Str.is_empty last_event_id then h
  else <["Last-Event-ID" := last_event_id]> h.

(** "no event field set a non-empty type before dispatch", read of the
    fields of one block: none of them is an [event] field with a value
    that is not empty. *)
Definition no_type_set (fields : list (string * string)) : bool :=
  forallb (fun f => negb (String.eqb (fst f) "event") || Str.is_empty (snd f))
          fields.

(** "the lifecycle must wait reconnectionTime and re-run the connect
    procedure, carrying forward lastEventId": between the world before
    and the world after, one wait of the reconnection time was made and
    one more request was issued, with the last event id in its headers. *)
Definition reconnected (es : EventSource) (w w' : World) : Prop :=
  sleeps w' = (sleeps w ++ [_reconnection_time es])%list /\
  exists url kwargs,
    requests w' = (requests w ++ [(url, kwargs)])%list /\
    kwargs !! "headers" = Some (VDict (request_headers (_last_event_id es))).

End Spec.

(* ===================================================================== *)
(** ** The remaining methods and the lines of a stream                    *)
(* ===================================================================== *)

(** [EventSource.__enter__]: the plain [with] statement is refused. *)
Definition __enter__ (es : EventSource) : result EventSource := inl TypeError.

(** [EventSource.__exit__]. *)
Definition __exit__ (es : EventSource) : unit := tt.

(** [EventSource.__aexit__]. [closed] tells whether the session is closed
    before the call, the answer whether it is closed after it: the session
    is closed when the instance made it itself. *)
Definition __aexit__ (es : EventSource) (closed : bool) : bool :=
  if _need_close_session es then true else closed.

(** The properties [url], [with_credentials] and [ready_state]. *)
Definition url (es : EventSource) : string := _url es.
Definition with_credentials (es : EventSource) : pyval := _with_credentials es.
Definition ready_state (es : EventSource) : Z := _ready_state es.

(** [EventSource.__aiter__]. *)
Definition __aiter__ (es : EventSource) : EventSource := es.

(** The outcome of the loop of [__anext__] and the instance it leaves,
    without the lines that remain. *)
Definition loop_result (lines : list string) (es : EventSource)
    : result (option MessageEvent) * EventSource :=
  (fst (fst (anext_loop lines es)), snd (anext_loop lines es)).

(** The line a server writes for a field: name, colon, space, value, LF;
    and the same line without value. *)
Definition field_line (name value : string) : string :=
  name +:+ ": " +:+ value +:+ Str.NL.

(** A field name as a server writes it: well-formed UTF-8, not empty,
    without colon and without LF. *)
Definition wire_name (name : string) : Prop :=
  Py.utf8_ok name [] = true /\ name <> "" /\
  Str.contains Str.COLON name = false /\ Str.contains Str.LF name = false.

(** A line that decodes and, stripped of its end, starts with a colon. *)
Definition comment_line (raw : string) : Prop :=
  exists line, Py.decode_utf8 raw = inr line /\
    Str.starts_with Str.COLON (Str.rstrip Str.CR (Str.rstrip Str.LF line)) = true.

(** The four field names [_process_field] knows. *)
Definition known_field (name : string) : bool :=
  String.eqb name "event" || String.eqb name "data" ||
  String.eqb name "id" || String.eqb name "retry".

(** Two delivered lines that decode to the same line once their end is
    stripped. *)
Definition same_line (raw1 raw2 : string) : Prop :=
  exists l1 l2, Py.decode_utf8 raw1 = inr l1 /\ Py.decode_utf8 raw2 = inr l2 /\
    Str.rstrip Str.CR (Str.rstrip Str.LF l1) = Str.rstrip Str.CR (Str.rstrip Str.LF l2).

(** The text of a line before its terminator, as the reader delivers it
    inside a piece: well-formed UTF-8 without LF. *)
Definition line_text (l : string) : Prop :=
  Py.utf8_ok l [] = true /\ Str.contains Str.LF l = false.

(** The values of a block that dispatches: at least one, all plain. *)
Definition data_values (values : list string) : Prop :=
  values <> [] /\ Forall plain values.

(** What the synchronous methods and the loop of [__anext__] leave as
    it is in [es0]. *)
Definition fixed (es0 es : EventSource) : Prop :=
  _url es = _url es0 /\ _with_credentials es = _with_credentials es0 /\
  _need_close_session es = _need_close_session es0 /\
  _ready_state es = _ready_state es0.

(** The instance after the fields of a list, each handed to
    [_process_field] in turn. An exception ends the call of [__anext__]
    in which it is raised but leaves the instance as the field left it,
    and the next call goes on from there. *)
Definition after_fields (fields : list (string * string)) (es : EventSource)
    : EventSource :=
  fold_left (fun es f => snd (_process_field (fst f) (snd f) es)) fields es.

(** The value of the last [event] field of a list of fields, the empty
    text when there is none. *)
Definition last_event (fields : list (string * string)) : string :=
  fold_left (fun t f => if String.eqb (fst f) "event" then snd f else t)
            fields "".

(** Text of ASCII characters only. *)
Fixpoint ascii_text (s : string) : bool :=
  match s with
  | EmptyString => true
  | String c r => (N_of_ascii c <? 128)%N && ascii_text r
  end.


(** A delivered line that decodes and is no [retry] field. *)
Definition quiet_line (raw : string) : Prop :=
  (exists line, Py.decode_utf8 raw = inr line) /\
  field_name_of raw <> Some "retry".

(** The milliseconds a [timedelta] holds. *)
Definition MIN_DELTA_MS : Z := -86399999913600000.
Definition MAX_DELTA_MS : Z := 86399999999999999.

(* ===================================================================== *)
(** ** Facts about the [str] methods                                      *)
(* ===================================================================== *)

Module StrFacts.
Import Str.

Lemma is_empty_true (s : string) : is_empty s = true <-> s = "".
Proof. destruct s; simpl; split; congruence. Qed.

Lemma eqb_empty (s : string) : String.eqb s "" = is_empty s.
Proof. destruct s; reflexivity. Qed.

Lemma append_nil (t : string) : "" +:+ t = t.
Proof. reflexivity. Qed.

Lemma append_cons (a : ascii) (s t : string) :
  String a s +:+ t = String a (s +:+ t).
Proof. reflexivity. Qed.

(** Unfolding of [+:+] on a constructor, then the usual simplification. *)
Ltac str_simpl := simpl; rewrite ?append_nil, ?append_cons; simpl.

Lemma append_empty_r (s : string) : s +:+ "" = s.
Proof. induction s as [|a s IH]; str_simpl; [reflexivity | now rewrite IH]. Qed.

Lemma append_assoc (s t u : string) : (s +:+ t) +:+ u = s +:+ (t +:+ u).
Proof. induction s as [|a s IH]; str_simpl; [reflexivity | now rewrite IH]. Qed.

Lemma append_eq_empty (s t : string) : s +:+ t = "" -> s = "" /\ t = "".
Proof. destruct s; str_simpl; [tauto | discriminate]. Qed.

Lemma last_char_cons (a : ascii) (s : string) :
  s <> "" -> last_char (String a s) = last_char s.
Proof. destruct s; [congruence | reflexivity]. Qed.

Lemma last_char_none (s : string) : last_char s = None <-> s = "".
Proof.
  induction s as [|a s IH]; simpl; [tauto |].
  destruct s; [split; discriminate |].
  rewrite IH. split; discriminate.
Qed.

Lemma last_char_app (s t : string) :
  t <> "" -> last_char (s +:+ t) = last_char t.
Proof.
  intros Ht. induction s as [|a s IH]; str_simpl; [reflexivity |].
  destruct (s +:+ t) eqn:E.
  - apply append_eq_empty in E. tauto.
  - exact IH.
Qed.

(** What [rstrip] leaves does not end in the stripped character. *)
Lemma rstrip_last (c : ascii) (s : string) : last_char (rstrip c s) <> Some c.
Proof.
  induction s as [|a s IH]; simpl; [discriminate |].
  destruct (rstrip c s) as [|b r] eqn:R.
  - destruct (Ascii.eqb a c) eqn:E; simpl; [discriminate |].
    apply Ascii.eqb_neq in E. congruence.
  - rewrite andb_false_r. rewrite last_char_cons by discriminate. exact IH.
Qed.

(** Text that does not end in [c] is left as it is. *)
Lemma rstrip_id (c : ascii) (s : string) :
  last_char s <> Some c -> rstrip c s = s.
Proof.
  induction s as [|a s IH]; simpl; [reflexivity |].
  destruct s as [|b s].
  - simpl. intros H. destruct (Ascii.eqb a c) eqn:E; [|reflexivity].
    apply Ascii.eqb_eq in E. congruence.
  - intros H. rewrite (IH H). now rewrite andb_false_r.
Qed.

(** Trailing copies of [c], however many, all go. *)
Lemma rstrip_app_replicate (c : ascii) (s : string) (n : nat) :
  rstrip c (s +:+ replicate n c) = rstrip c s.
Proof.
  induction s as [|a s IH]; str_simpl.
  - induction n as [|n IHn]; simpl; [reflexivity |].
    rewrite IHn. simpl. now rewrite Ascii.eqb_refl.
  - now rewrite IH.
Qed.

(** [rstrip] removes a run of [c] at the end and nothing else. *)
Lemma rstrip_decomp (c : ascii) (s : string) :
  exists n, s = rstrip c s +:+ replicate n c.
Proof.
  induction s as [|a s [n IH]]; simpl.
  - exists O. reflexivity.
  - destruct (Ascii.eqb a c) eqn:E; simpl.
    + destruct (rstrip c s) eqn:R.
      * apply Ascii.eqb_eq in E. subst a. exists (S n). str_simpl.
        rewrite append_nil in IH. f_equal. exact IH.
      * exists n. str_simpl. rewrite append_cons in IH. f_equal. exact IH.
    + exists n. str_simpl. f_equal. exact IH.
Qed.

Lemma rstrip_idem (c : ascii) (s : string) : rstrip c (rstrip c s) = rstrip c s.
Proof. apply rstrip_id, rstrip_last. Qed.

(** What [lstrip] leaves does not start with the stripped character. *)
Lemma lstrip_head (c : ascii) (s : string) : starts_with c (lstrip c s) = false.
Proof.
  induction s as [|a s IH]; simpl; [reflexivity |].
  destruct (Ascii.eqb a c) eqn:E; [exact IH | simpl; exact E].
Qed.

(** Leading copies of [c], however many, all go. *)
Lemma lstrip_replicate_app (c : ascii) (n : nat) (s : string) :
  lstrip c (replicate n c +:+ s) = lstrip c s.
Proof.
  induction n as [|n IH]; str_simpl; [reflexivity |].
  now rewrite Ascii.eqb_refl.
Qed.

Lemma lstrip_id (c : ascii) (s : string) :
  starts_with c s = false -> lstrip c s = s.
Proof. destruct s; simpl; [reflexivity |]. now intros ->. Qed.

(** [split1] cuts at a [c] and the text before the cut has no [c]: the cut
    is at the first one. *)
Lemma split1_some (c : ascii) (s before after : string) :
  split1 c s = Some (before, after) ->
  s = before +:+ String c after /\ contains c before = false.
Proof.
  revert before. induction s as [|a s IH]; simpl; intros before; [discriminate |].
  destruct (Ascii.eqb a c) eqn:E.
  - intros [= <- <-]. apply Ascii.eqb_eq in E. subst a. now split.
  - destruct (split1 c s) as [[b' a']|] eqn:S; [|discriminate].
    intros [= <- <-]. destruct (IH b' eq_refl) as [-> Hb].
    str_simpl. rewrite E. now split.
Qed.

Lemma split1_none (c : ascii) (s : string) :
  split1 c s = None <-> contains c s = false.
Proof.
  induction s as [|a s IH]; simpl; [tauto |].
  destruct (Ascii.eqb a c); simpl.
  - split; discriminate.
  - destruct (split1 c s) as [[b' a']|].
    + split; [discriminate |]. intros H. apply IH in H. discriminate.
    + tauto.
Qed.

End StrFacts.

(* ===================================================================== *)
(** ** Dispatch                                                           *)
(* ===================================================================== *)

Section Dispatch.
Import Str StrFacts.

Variable es : EventSource.

(** An empty data buffer dispatches nothing. *)
Lemma dispatch_empty :
  _event_data es = "" ->
  _dispatch_event es = (None, set_event_type "" (set_last_event_id (_event_id es) es)).
Proof. unfold _dispatch_event. simpl. now intros ->. Qed.

(** A non-empty data buffer dispatches one event, whose data is the buffer
    without any of its trailing line feeds. *)
Lemma dispatch_nonempty :
  _event_data es <> "" ->
  exists m, fst (_dispatch_event es) = Some m /\
    data m = rstrip LF (_event_data es) /\
    message m = _event_type es /\
    type m = (if String.eqb (_event_type es) "" then None else Some (_event_type es)) /\
    origin m = _origin es /\
    last_event_id m = _event_id es.
Proof.
  intros H. unfold _dispatch_event. simpl.
  rewrite eqb_empty. destruct (_event_data es); [congruence |].
  simpl. eexists. repeat split.
Qed.

(** The instance after a dispatch, whatever was dispatched. *)
Lemma dispatch_state :
  let es' := snd (_dispatch_event es) in
  _last_event_id es' = _event_id es /\ _event_type es' = "" /\
  _event_data es' = "" /\ _event_id es' = _event_id es /\
  _reconnection_time es' = _reconnection_time es /\
  _kwargs es' = _kwargs es /\ _ready_state es' = _ready_state es /\
  _origin es' = _origin es /\ _response es' = _response es /\
  _url es' = _url es.
Proof.
  unfold _dispatch_event. simpl.
  rewrite eqb_empty. destruct (_event_data es) eqn:E; simpl; rewrite ?E; tauto.
Qed.

End Dispatch.

Lemma dispatch_emits_id (es es' : EventSource) (m : MessageEvent) :
  _dispatch_event es = (Some m, es') -> last_event_id m = _event_id es.
Proof.
  unfold _dispatch_event. simpl. destruct (String.eqb _ _); [discriminate |].
  now intros [= <- _].
Qed.

Lemma dispatch_keeps_id (es es' : EventSource) (r : option MessageEvent) :
  _dispatch_event es = (r, es') -> _event_id es' = _event_id es.
Proof.
  intros H. pose proof (dispatch_state es) as K. rewrite H in K. simpl in K. tauto.
Qed.

(* ===================================================================== *)
(** ** The field parser                                                   *)
(* ===================================================================== *)

Section ProcessField.
Import Str StrFacts.

Variables (field_name field_value : string) (es : EventSource).

(** What [_process_field] never touches. *)
Lemma process_field_frame :
  let es' := snd (_process_field field_name field_value es) in
  _last_event_id es' = _last_event_id es /\ _kwargs es' = _kwargs es /\
  _ready_state es' = _ready_state es /\ _origin es' = _origin es /\
  _response es' = _response es /\ _url es' = _url es.
Proof.
  unfold _process_field.
  repeat match goal with
         | |- context [if ?b then _ else _] => destruct b
         | |- context [match ?x with _ => _ end] => destruct x
         end; simpl; tauto.
Qed.

(** Only an [id] field writes the id buffer. *)
Lemma process_field_keeps_id :
  field_name <> "id" ->
  _event_id (snd (_process_field field_name field_value es)) = _event_id es.
Proof.
  intros H. unfold _process_field.
  destruct (String.eqb_spec field_name "id"); [contradiction |].
  repeat match goal with
         | |- context [if ?b then _ else _] => destruct b
         | |- context [match ?x with _ => _ end] => destruct x
         end; reflexivity.
Qed.

(** Only an [event] field writes the type buffer. *)
Lemma process_field_event :
  _event_type (snd (_process_field field_name field_value es)) =
  if String.eqb field_name "event" then field_value else _event_type es.
Proof.
  unfold _process_field. destruct (String.eqb field_name "event"); [reflexivity |].
  repeat match goal with
         | |- context [if ?b then _ else _] => destruct b
         | |- context [match ?x with _ => _ end] => destruct x
         end; reflexivity.
Qed.

(** Only a [retry] field raises, and only [OverflowError]. *)
Lemma process_field_raises (e : exn) :
  fst (_process_field field_name field_value es) = inl e ->
  field_name = "retry" /\ e = OverflowError /\
  exists n, Py.int field_value = Some n /\
            Py.timedelta_milliseconds n = inl OverflowError.
Proof.
  unfold _process_field.
  destruct (String.eqb field_name "event"); [discriminate |].
  destruct (String.eqb field_name "data"); [discriminate |].
  destruct (String.eqb field_name "id"); [discriminate |].
  destruct (String.eqb_spec field_name "retry") as [-> | _]; [|discriminate].
  destruct (Py.int field_value) as [k|]; [|discriminate].
  destruct (Py.timedelta_milliseconds k) as [e'|t] eqn:T; [|discriminate].
  assert (e' = OverflowError) as ->.
  { unfold Py.timedelta_milliseconds in T.
    destruct (Z.abs _ <=? _); congruence. }
  intros [= <-]. repeat split. exists k. split; [reflexivity | exact T].
Qed.

End ProcessField.

(* ===================================================================== *)
(** ** The loop of [__anext__]                                            *)
(* ===================================================================== *)

Section Loop.
Import Str StrFacts.

(** One case per way through the body of the loop. *)
Ltac loop_step :=
  simpl anext_loop; unfold field_name_of in *;
  repeat match goal with
         | |- context [Py.decode_utf8 ?l] => destruct (Py.decode_utf8 l) eqn:?
         | |- context [String.eqb ?l ""] => destruct (String.eqb l "") eqn:?
         | |- context [starts_with ?c ?l] => destruct (starts_with c l) eqn:?
         | |- context [split1 ?c ?l] => destruct (split1 c l) as [[? ?]|] eqn:?
         | |- context [_dispatch_event ?s] => destruct (_dispatch_event s) as [[?|] ?] eqn:?
         | |- context [_process_field ?n ?v ?s] =>
             destruct (_process_field n v s) as [[?|?] ?] eqn:?
         end.

(** Any property of the instance that dispatching and field processing
    maintain is maintained by the loop. *)
Lemma anext_loop_inv (P : EventSource -> Prop) :
  (forall es, P es -> P (snd (_dispatch_event es))) ->
  (forall n v es, P es -> P (snd (_process_field n v es))) ->
  forall lines es, P es -> P (snd (anext_loop lines es)).
Proof.
  intros Hd Hp lines. induction lines as [|raw lines IH]; intros es HP; [exact HP |].
  loop_step; simpl;
    repeat match goal with
           | H : _dispatch_event ?s = _ |- _ =>
               let K := fresh in pose proof (Hd s HP) as K; rewrite H in K; clear H
           | H : _process_field ?n ?v ?s = _ |- _ =>
               let K := fresh in pose proof (Hp n v s HP) as K; rewrite H in K; clear H
           end; simpl in *; auto.
Qed.

(** Lines without [id] field leave the id buffer alone, and an event that
    comes out of them bears the id the buffer held at the start. *)
Lemma anext_loop_keeps_id (lines : list string) :
  Forall (fun raw => field_name_of raw <> Some "id") lines ->
  forall es,
    _event_id (snd (anext_loop lines es)) = _event_id es /\
    (forall m, fst (fst (anext_loop lines es)) = inr (Some m) ->
               last_event_id m = _event_id es).
Proof.
  intros Hall. induction Hall as [|raw rest Hraw Hall IH]; intros es.
  - simpl. split; [reflexivity | discriminate].
  - revert Hraw. loop_step; intros Hraw; simpl;
      repeat match goal with
             | H : _dispatch_event ?s = (Some _, _) |- _ =>
                 pose proof (dispatch_emits_id _ _ _ H);
                 apply dispatch_keeps_id in H
             | H : _dispatch_event ?s = (None, _) |- _ =>
                 apply dispatch_keeps_id in H
             | H : _process_field ?n ?v ?s = _ |- _ =>
                 let K := fresh in
                 pose proof (process_field_keeps_id n v s) as K;
                 rewrite H in K; simpl in K; clear H;
                 try specialize (K ltac:(congruence))
             end.
    all: try match goal with
             | |- context [anext_loop _ ?s] => destruct (IH s) as [IH1 IH2]
             end.
    all: split; [| intros m' Hm'; try apply IH2 in Hm']; congruence.
Qed.

(** Every event the loop returns was made by [_dispatch_event]. *)
Lemma anext_loop_event (P : MessageEvent -> Prop) :
  (forall es m es', _dispatch_event es = (Some m, es') -> P m) ->
  forall lines es m rest es',
    anext_loop lines es = (inr (Some m), rest, es') -> P m.
Proof.
  intros HP lines. induction lines as [|raw lines IH]; intros es m rest es';
    [discriminate |].
  loop_step; try discriminate; eauto.
  intros [= <- _ _]. eauto.
Qed.

End Loop.

(** C3 (code at the failing input). The data fields [a] and the empty one
    accumulate ["a\n\n"]. Taking one final line feed away leaves ["a\n"];
    [_dispatch_event] emits ["a"]: both line feeds are gone. *)
Theorem C3_dispatch_strips_every_trailing_newline :
  let es1 := snd (_process_field "data" "a" fresh) in
  let es2 := snd (_process_field "data" "" es1) in
  _event_data es2 = "a" +:+ Str.NL +:+ Str.NL /\
  Str.chop Str.LF (_event_data es2) = "a" +:+ Str.NL /\
  option_map data (fst (_dispatch_event es2)) = Some "a".
Proof. vm_compute. repeat split. Qed.

(** C6. A dispatch commits the id buffer to [_last_event_id], empties the
    type and data buffers and leaves the id buffer alone, whether or not
    an event comes out; hence an event built afterwards from lines that
    carry no [id] field bears the id the buffer held. *)
Theorem C6_dispatch_commits_id_and_resets_buffers
    (es : EventSource) (later : list string) :
  Forall (fun raw => field_name_of raw <> Some "id") later ->
  let es' := snd (_dispatch_event es) in
  _last_event_id es' = _event_id es /\
  _event_type es' = "" /\
  _event_data es' = "" /\
  _event_id es' = _event_id es /\
  (forall m rest es'',
     anext_loop later es' = (inr (Some m), rest, es'') ->
     last_event_id m = _event_id es).
Proof.
  intros Hlater es'. pose proof (dispatch_state es) as K. fold es' in K.
  destruct K as (K1 & K2 & K3 & K4 & _). repeat split; try assumption.
  intros m rest es'' Hm.
  destruct (anext_loop_keeps_id later Hlater es') as [_ Hid].
  rewrite (Hid m) by now rewrite Hm. exact K4.
Qed.

(** An id set by one event is the id of the next event, which has no [id]
    field of its own. *)
Lemma C6_dispatch_commits_id_and_resets_buffers_witness :
  let es := snd (_process_field "data" "x" (snd (_process_field "id" "7" fresh))) in
  let later := ["data: y" +:+ Str.NL; Str.NL] in
  Forall (fun raw => field_name_of raw <> Some "id") later /\
  _last_event_id (snd (_dispatch_event es)) = "7" /\
  exists m, fst (fst (anext_loop later (snd (_dispatch_event es)))) = inr (Some m) /\
            last_event_id m = "7".
Proof.
  intros es later.
  assert (Hlater : Forall (fun raw => field_name_of raw <> Some "id") later).
  { repeat constructor; vm_compute; discriminate. }
  split; [exact Hlater |].
  destruct (C6_dispatch_commits_id_and_resets_buffers es later Hlater)
    as (H1 & _ & _ & _ & H5).
  split; [exact H1 |].
  destruct (anext_loop later (snd (_dispatch_event es))) as [[r rest] es''] eqn:E.
  assert (Hr : exists m, r = inr (Some m)).
  { vm_compute in E. injection E as <- _ _. eexists. reflexivity. }
  destruct Hr as [m ->]. exists m. split; [reflexivity |].
  exact (H5 m rest es'' eq_refl).
Defined.

(* ===================================================================== *)
(** ** The emitted event                                                  *)
(* ===================================================================== *)

(** The [type] and the [message] of an emitted event, by the type buffer
    at dispatch. *)
Lemma dispatch_event_type (es es' : EventSource) (m : MessageEvent) :
  _dispatch_event es = (Some m, es') ->
  message m = _event_type es /\
  (type m = None <-> _event_type es = "") /\
  (forall t, type m = Some t <-> (t = _event_type es /\ t <> "")) /\
  (type m = Some "message" <-> _event_type es = "message").
Proof.
  unfold _dispatch_event. simpl.
  destruct (String.eqb (_event_data es) ""); [discriminate |].
  intros [= <- _]. simpl.
  destruct (String.eqb_spec (_event_type es) "") as [E | E].
  - rewrite E. repeat split; intros; try congruence; intuition congruence.
  - repeat split; intros; try congruence; intuition congruence.
Qed.

(** The type buffer after a run of fields: the value of the last [event]
    field, or what it held when there is none. *)
Lemma after_fields_type (fields : list (string * string)) (es : EventSource) :
  _event_type (after_fields fields es) =
  fold_left (fun t f => if String.eqb (fst f) "event" then snd f else t)
            fields (_event_type es).
Proof.
  revert es. unfold after_fields.
  induction fields as [|[n v] fields IH]; intros es; [reflexivity |].
  cbn [fold_left fst snd]. rewrite IH. now rewrite process_field_event.
Qed.

(** Every event [__anext__] returns has [type] determined by [message]
    in this way. *)
Lemma anext_event_type (es es' : EventSource) (w w' : World) (m : MessageEvent) :
  __anext__ es w = (inr (Some m), es', w') ->
  type m = if String.eqb (message m) "" then None else Some (message m).
Proof.
  unfold __anext__. destruct (_response es) as [r|]; [|discriminate].
  destruct (anext_loop (content r) es) as [[res rest] es1] eqn:E.
  intros [= -> _ _].
  apply (anext_loop_event
           (fun m => type m = if String.eqb (message m) "" then None
                              else Some (message m))) in E; [exact E |].
  clear. intros es m es'. unfold _dispatch_event. simpl.
  destruct (String.eqb (_event_data es) ""); [discriminate |].
  now intros [= <- _].
Qed.

(* ===================================================================== *)
(** ** Data of an event                                                   *)
(* ===================================================================== *)

Section EventData.
Import Str StrFacts.

Lemma after_data_buffer (values : list string) (es : EventSource) :
  _event_data (after_data values es) =
  _event_data es +:+ Spec.data_buffer values.
Proof.
  revert es. induction values as [|v values IH]; intros es.
  - simpl. symmetry. apply append_empty_r.
  - unfold after_data in *. simpl fold_left. rewrite IH.
    change (_event_data (snd (_process_field "data" v es)))
      with ((_event_data es +:+ v) +:+ NL).
    simpl. now rewrite !append_assoc.
Qed.

Lemma data_buffer_app (values : list string) (v : string) :
  Spec.data_buffer (values ++ [v]) = (Spec.data_buffer values +:+ v) +:+ NL.
Proof.
  induction values as [|x values IH]; simpl.
  - now rewrite append_empty_r.
  - rewrite IH. now rewrite !append_assoc.
Qed.

Lemma chop_app (c : ascii) (s : string) : chop c (s +:+ String c "") = s.
Proof.
  induction s as [|a s IH]; str_simpl; [now rewrite Ascii.eqb_refl |].
  rewrite IH. destruct s; reflexivity.
Qed.

Lemma rstrip_app (c : ascii) (s : string) :
  last_char s <> Some c -> rstrip c (s +:+ String c "") = s.
Proof.
  intros H. change (String c "") with (replicate 1 c).
  rewrite rstrip_app_replicate. now apply rstrip_id.
Qed.

(** Where the two ways of trimming agree: on a buffer with a single final
    line feed. *)
Lemma rstrip_chop (c : ascii) (s : string) :
  last_char s <> Some c -> rstrip c (s +:+ String c "") = chop c (s +:+ String c "").
Proof. intros H. now rewrite rstrip_app, chop_app. Qed.

(** A run of [data] fields into an empty buffer, whose last value is not
    empty and does not end in a line feed, dispatches one event with the
    data the specification describes. *)
Lemma data_as_specified (values : list string) (v : string) (es : EventSource) :
  _event_data es = "" -> v <> "" -> last_char v <> Some LF ->
  exists m, fst (_dispatch_event (after_data (values ++ [v]) es)) = Some m /\
            data m = Spec.event_data (values ++ [v]).
Proof.
  intros He Hv Hlast.
  set (es1 := after_data (values ++ [v]) es).
  assert (B : _event_data es1 = (Spec.data_buffer values +:+ v) +:+ NL).
  { unfold es1. rewrite after_data_buffer, He, append_nil.
    apply data_buffer_app. }
  destruct (dispatch_nonempty es1) as (m & Hm & Hd & _).
  { rewrite B. intros E. apply append_eq_empty in E. destruct E. discriminate. }
  exists m. split; [exact Hm |].
  rewrite Hd. unfold Spec.event_data. rewrite data_buffer_app, B.
  apply rstrip_chop. rewrite last_char_app by exact Hv. exact Hlast.
Qed.

End EventData.

(** C2 (code at the example and at the failing input). The block of the
    example gives one event, of type [foo], data ["a\nb"] and id [42], and
    nothing after it. The block [data: a], [data:], blank line gives one
    event too, but its data is ["a"] where the values [a] and the empty
    one, each followed by a line feed and the last line feed taken away,
    make ["a\n"]. *)
Theorem C2_one_event_per_block :
  (let '(es, w) := connected ("event: foo" +:+ Str.NL +:+ "data: a" +:+ Str.NL +:+
                              "data: b" +:+ Str.NL +:+ "id: 42" +:+ Str.NL +:+ Str.NL) in
   fst (fst (fst (consume 2 es w))) =
     [Some {| type := Some "foo"; message := "foo";
              data := "a" +:+ Str.NL +:+ "b";
              origin := Some "http://example.org";
              last_event_id := "42" |};
      None]) /\
  (let '(es, w) := connected ("data: a" +:+ Str.NL +:+ "data:" +:+ Str.NL +:+ Str.NL) in
   exists m, fst (fst (fst (consume 2 es w))) = [Some m; None] /\
             data m = "a" /\
             Spec.event_data ["a"; ""] = "a" +:+ Str.NL).
Proof.
  split.
  - vm_compute. reflexivity.
  - vm_compute. eexists. repeat split.
Qed.

(* ===================================================================== *)
(** ** Field name and field value                                         *)
(* ===================================================================== *)

Section FieldValue.
Import Str StrFacts.

(** [lstrip] removes a run of spaces at the start and nothing else. *)
Lemma lstrip_decomp (c : ascii) (s : string) :
  exists n, s = replicate n c +:+ lstrip c s.
Proof.
  induction s as [|a s [n IH]]; simpl.
  - exists O. reflexivity.
  - destruct (Ascii.eqb_spec a c) as [-> | _].
    + exists (S n). str_simpl. f_equal. exact IH.
    + exists O. reflexivity.
Qed.

(** Where the two ways of trimming agree: on text with at most one
    leading space. *)
Lemma lstrip_behead (c : ascii) (s : string) :
  starts_with c (behead c s) = false -> lstrip c s = behead c s.
Proof.
  destruct s as [|a s]; simpl; [reflexivity |].
  destruct (Ascii.eqb a c) eqn:E.
  - apply lstrip_id.
  - reflexivity.
Qed.

End FieldValue.

(** C4 (code at the failing input). The line [data:  x], with two spaces
    after the colon, is cut at its first colon into the name [data] and
    the rest; one leading space taken away from the rest leaves [ x],
    but the value the parser stores is [x]: both spaces are gone. *)
Theorem C4_field_value_loses_every_leading_space :
  Str.split1 Str.COLON "data:  x" = Some ("data", "  x") /\
  Spec.field_value "  x" = " x" /\
  Str.lstrip Str.SPACE "  x" = "x" /\
  _event_data (snd (anext_loop ["data:  x" +:+ Str.NL] fresh)) = "x" +:+ Str.NL.
Proof. vm_compute. repeat split. Qed.

(* ===================================================================== *)
(** ** The [retry] field                                                  *)
(* ===================================================================== *)

Section Retry.

(** The milliseconds a [timedelta] can hold. *)
Lemma timedelta_milliseconds_range (n : Z) :
  Py.timedelta_milliseconds n = inr (n * 1000) <->
  -86399999913600000 <= n <= 86399999999999999.
Proof.
  unfold Py.timedelta_milliseconds, Py.US_PER_MS, Py.US_PER_DAY, Py.MAX_DELTA_DAYS.
  pose proof (Z.div_mod (n * 1000) 86400000000 ltac:(lia)) as D.
  pose proof (Z.mod_pos_bound (n * 1000) 86400000000 ltac:(lia)) as M.
  destruct (Z.leb_spec (Z.abs (n * 1000 / 86400000000)) 999999999) as [L | L].
  - split; [intros _; lia | reflexivity].
  - split; [discriminate | intros H; lia].
Qed.

Variable es : EventSource.

(** A value that converts and fits replaces the reconnection time. *)
Lemma retry_replaces (value : string) (n : Z) :
  Py.int value = Some n ->
  -86399999913600000 <= n <= 86399999999999999 ->
  _process_field "retry" value es = (inr tt, set_reconnection_time (n * 1000) es).
Proof.
  intros Hint Hrange. apply timedelta_milliseconds_range in Hrange.
  unfold _process_field. simpl. now rewrite Hint, Hrange.
Qed.

(** A value that does not convert is ignored. *)
Lemma retry_ignored (value : string) :
  Py.int value = None -> _process_field "retry" value es = (inr tt, es).
Proof. intros Hint. unfold _process_field. simpl. now rewrite Hint. Qed.

(** A value that converts and does not fit raises. *)
Lemma retry_overflows (value : string) (n : Z) :
  Py.int value = Some n ->
  ~ (-86399999913600000 <= n <= 86399999999999999) ->
  _process_field "retry" value es = (inl OverflowError, es).
Proof.
  intros Hint Hrange. unfold _process_field. simpl. rewrite Hint.
  destruct (Py.timedelta_milliseconds n) as [e|t] eqn:T.
  - unfold Py.timedelta_milliseconds in T.
    destruct (Z.abs _ <=? _); [discriminate |]. now injection T as <-.
  - exfalso. apply Hrange. apply timedelta_milliseconds_range.
    unfold Py.timedelta_milliseconds in *.
    destruct (Z.abs _ <=? _); [reflexivity | discriminate].
Qed.

End Retry.

(** C7 (code at the failing input). The value [100000000000000000000]
    converts to an integer, and that many milliseconds are more than a
    [timedelta] holds: [_process_field] raises [OverflowError], which the
    handler for [ValueError] does not catch, the reconnection time is not
    replaced, and the loop of [__anext__] raises on the line
    [retry: 100000000000000000000]. *)
Theorem C7_retry_beyond_timedelta_raises :
  Py.int "100000000000000000000" = Some 100000000000000000000 /\
  _process_field "retry" "100000000000000000000" fresh = (inl OverflowError, fresh) /\
  fst (fst (anext_loop ["retry: 100000000000000000000" +:+ Str.NL; Str.NL] fresh))
    = inl OverflowError.
Proof. vm_compute. repeat split. Qed.

(* ===================================================================== *)
(** ** Connecting                                                         *)
(* ===================================================================== *)

Section Connect.

Variables (es : EventSource) (w : World).


(** With a mapping under ['headers'], one request is issued, and the
    mapping it carries has the three entries written into it. *)
Lemma connect_request (h : gmap string string) :
  _kwargs es !! "headers" = Some (VDict h) ->
  let h' := <[hdrs.CACHE_CONTROL := "no-cache"]>
              (<["Last-Event_ID" := _last_event_id es]>
                 (<[hdrs.ACCEPT := CONTENT_TYPE_EVENT_STREAM]> h)) in
  let w' := snd (_connect es w) in
  requests w' = (requests w ++ [(_url es, <["headers" := VDict h']> (_kwargs es))])%list /\
  sleeps w' = sleeps w /\
  script w' = tail (script w) /\
  _kwargs (snd (fst (_connect es w))) = <["headers" := VDict h']> (_kwargs es).
Proof.
  intros H. unfold _connect. rewrite H. simpl.
  unfold session_get. simpl.
  destruct (script w) as [|[e|r] rs]; simpl; try tauto.
  destruct (400 <=? status r); simpl; try tauto.
  unfold _connected. destruct (negb _); simpl; tauto.
Qed.

(** A response with a status of 400 or more leaves the instance without
    response and in the ready state it had. *)
Lemma connect_refused (h : gmap string string) (response : ClientResponse)
    (rest : list (result ClientResponse)) :
  _kwargs es !! "headers" = Some (VDict h) ->
  script w = inr response :: rest ->
  400 <= status response ->
  let '(r, es', w') := _connect es w in
  r = inr tt /\ _response es' = _response es /\ _origin es' = _origin es /\
  _ready_state es' = _ready_state es /\
  _last_event_id es' = _last_event_id es /\
  _reconnection_time es' = _reconnection_time es /\
  sleeps w' = sleeps w /\ length (requests w') = S (length (requests w)) /\
  script w' = rest.
Proof.
  intros H Hs Hst. unfold _connect. rewrite H. simpl.
  unfold session_get. simpl. rewrite Hs.
  destruct (Z.leb_spec 400 (status response)); [| lia]. simpl.
  repeat split. rewrite length_app. simpl. lia.
Qed.

(** A response with a status below 400 opens the instance, unless it was
    closed. *)
Lemma connect_accepted (h : gmap string string) (response : ClientResponse)
    (rest : list (result ClientResponse)) :
  _kwargs es !! "headers" = Some (VDict h) ->
  script w = inr response :: rest ->
  status response < 400 ->
  let '(r, es', w') := _connect es w in
  r = inr tt /\ _response es' = Some response /\
  _origin es' = Some (real_url_origin response) /\
  _ready_state es' = (if _ready_state es =? READY_STATE_CLOSED
                      then READY_STATE_CLOSED else READY_STATE_OPEN).
Proof.
  intros H Hs Hst. unfold _connect. rewrite H. simpl.
  unfold session_get. simpl. rewrite Hs.
  destruct (Z.leb_spec 400 (status response)); [lia |]. simpl.
  repeat split. unfold _connected. simpl.
  destruct (Z.eqb_spec (_ready_state es) READY_STATE_CLOSED) as [E | E]; simpl;
    [exact E | reflexivity].
Qed.

End Connect.

(** C5 (code at the failing input). The first connect of an instance,
    whose last event id is empty, sends [Accept] and [Cache-Control] and
    with them a header [Last-Event_ID] of empty value. With the last event
    id [42] the header [Last-Event_ID] carries [42] and no header is named
    [Last-Event-ID]. *)
Theorem C5_last_event_id_header_sent_always_and_misspelled :
  let look (h : gmap string string) :=
    (h !! "Accept", h !! "Cache-Control", h !! "Last-Event_ID", h !! "Last-Event-ID") in
  map look (headers_sent (snd (_connect fresh (served "")))) =
    [(Some "text/event-stream", Some "no-cache", Some "", None)] /\
  look (Spec.request_headers "") =
    (Some "text/event-stream", Some "no-cache", None, None) /\
  map look (headers_sent (snd (_connect (set_last_event_id "42" fresh) (served "")))) =
    [(Some "text/event-stream", Some "no-cache", Some "42", None)] /\
  look (Spec.request_headers "42") =
    (Some "text/event-stream", Some "no-cache", None, Some "42").
Proof. vm_compute. repeat split. Qed.

(* ===================================================================== *)
(** ** Keyword arguments                                                  *)
(* ===================================================================== *)





(* ===================================================================== *)
(** ** End of the stream                                                  *)
(* ===================================================================== *)

(** At the end of the stream [__anext__] returns [None] and leaves the
    instance and the world as they were, and any number of further calls
    do the same. A connect answered with a status of 400 or more returns
    with no response set, the ready state, last event id and reconnection
    time as before, one request issued and no wait made. *)
Lemma end_of_stream_and_refused_connect :
  (forall (es : EventSource) (w : World) (response : ClientResponse),
     _response es = Some response -> content response = [] ->
     __anext__ es w = (inr None, es, w) /\
     forall n, consume n es w = (repeat None n, None, es, w)) /\
  (forall (es : EventSource) (w : World) (h : gmap string string)
          (response : ClientResponse) (rest : list (result ClientResponse)),
     _kwargs es !! "headers" = Some (VDict h) ->
     script w = inr response :: rest ->
     400 <= status response ->
     let '(r, es', w') := _connect es w in
     r = inr tt /\ _response es' = _response es /\
     _ready_state es' = _ready_state es /\
     _last_event_id es' = _last_event_id es /\
     _reconnection_time es' = _reconnection_time es /\
     sleeps w' = sleeps w /\
     length (requests w') = S (length (requests w)) /\
     script w' = rest).
Proof.
  split.
  - intros es w response Hr Hc.
    assert (E : __anext__ es w = (inr None, es, w)).
    { unfold __anext__. rewrite Hr, Hc. simpl.
      destruct es, response; simpl in *. subst. reflexivity. }
    split; [exact E |].
    induction n as [|n IH]; simpl; [reflexivity |].
    rewrite E, IH. reflexivity.
  - intros es w h response rest Hk Hs Hst.
    pose proof (connect_refused es w h response rest Hk Hs Hst) as K.
    destruct (_connect es w) as [[r es'] w']. tauto.
Qed.

(** C1 (code at the failing inputs). Four instances that are not CLOSED.
    One has read the only event of its stream: the next calls of
    [__anext__] return [None], one after the other, and the world is what
    it was, no wait made and no request issued. One connects to a server
    that answers 503 and would answer 200 to a second request: [_connect]
    returns, the instance has no response, one request was issued, no
    wait was made and the second answer is still to come. One connects
    through a transport that fails once: [_connect] raises, and again no
    wait and no second request follow. One reads a line that is not
    UTF-8: [__anext__] raises and the world is what it was. In none of
    them the connect procedure is run again. *)
Theorem C1_nothing_reconnects :
  let ok := mkClientResponse 200 [] "http://example.org" in
  (let es := fst (connected (field_line "data" "a" +:+ Str.NL)) in
   let w := snd (connected (field_line "data" "a" +:+ Str.NL)) in
   ready_state es = READY_STATE_OPEN /\
   (exists m es',
      consume 3 es w = ([Some m; None; None], None, es', w) /\
      ~ Spec.reconnected es w w /\
      _reconnection_time es' = DEFAULT_RECONNECTION_TIME)) /\
  (let w := mkWorld [inr (mkClientResponse 503 [] "http://example.org"); inr ok] [] [] in
   fst (fst (_connect fresh w)) = inr tt /\
   _response (snd (fst (_connect fresh w))) = None /\
   ready_state (snd (fst (_connect fresh w))) = READY_STATE_CONNECTING /\
   sleeps (snd (_connect fresh w)) = [] /\
   length (requests (snd (_connect fresh w))) = 1%nat /\
   script (snd (_connect fresh w)) = [inr ok]) /\
  (let w := mkWorld [inl ClientError; inr ok] [] [] in
   fst (fst (_connect fresh w)) = inl ClientError /\
   _response (snd (fst (_connect fresh w))) = None /\
   sleeps (snd (_connect fresh w)) = [] /\
   length (requests (snd (_connect fresh w))) = 1%nat /\
   script (snd (_connect fresh w)) = [inr ok]) /\
  (let bad := mkClientResponse 200 [String "255"%char Str.NL] "http://example.org" in
   let es := set_response (Some bad) (fst (connected "")) in
   let w := snd (connected "") in
   ready_state es = READY_STATE_OPEN /\
   __anext__ es w = (inl UnicodeDecodeError,
                     set_response (Some (mkClientResponse 200 [] "http://example.org")) es, w) /\
   ~ Spec.reconnected es w w).
Proof.
  assert (Hno : forall es w, ~ Spec.reconnected es w w).
  { intros es w [H _]. apply (f_equal (@length Z)) in H.
    rewrite length_app in H. simpl in H. lia. }
  intros ok. split; [| split; [| split]].
  - split; [reflexivity |].
    eexists _, _. split; [vm_compute; reflexivity |]. split; [apply Hno | reflexivity].
  - repeat split.
  - repeat split.
  - split; [reflexivity |]. split; [reflexivity | apply Hno].
Qed.

(* ===================================================================== *)
(** ** Lines                                                              *)
(* ===================================================================== *)

Section Lines.
Import Str StrFacts.

Lemma contains_app (c : ascii) (s t : string) :
  contains c (s +:+ t) = contains c s || contains c t.
Proof.
  induction s as [|a s IH]; str_simpl; [reflexivity |].
  rewrite IH. now rewrite orb_assoc.
Qed.

Lemma contains_last (c : ascii) (s : string) :
  last_char s = Some c -> contains c s = true.
Proof.
  induction s as [|a s IH]; simpl; [discriminate |].
  destruct s as [|b s].
  - intros [= ->]. now rewrite Ascii.eqb_refl.
  - intros H. rewrite (IH H). apply orb_true_r.
Qed.

Lemma contains_replicate_other (c d : ascii) (n : nat) :
  c <> d -> contains c (replicate n d) = false.
Proof.
  intros H. induction n as [|n IH]; simpl; [reflexivity |].
  rewrite IH. destruct (Ascii.eqb_spec d c); [congruence | reflexivity].
Qed.

(** The pieces of [readlines], put together, are the body. *)
Lemma readlines_glue (body : string) : glue (readlines body) = body.
Proof.
  induction body as [|c rest IH]; simpl; [reflexivity |].
  destruct (Ascii.eqb c LF).
  - simpl. now rewrite IH.
  - destruct (readlines rest) as [|l ls]; simpl in *.
    + now rewrite <- IH.
    + rewrite append_cons. now rewrite IH.
Qed.

(** Each piece is a text without LF followed by one LF, or a non-empty
    text without LF. *)
Lemma readlines_piece (body raw : string) :
  In raw (readlines body) ->
  exists l, contains LF l = false /\ (raw = l +:+ NL \/ (raw = l /\ l <> "")).
Proof.
  revert raw. induction body as [|c rest IH]; intros raw; simpl; [tauto |].
  destruct (Ascii.eqb c LF) eqn:E.
  - intros [<- | H]; [| now apply IH].
    exists "". apply Ascii.eqb_eq in E. subst c. split; [reflexivity | now left].
  - destruct (readlines rest) as [|l0 ls].
    + intros [<- | []]. exists (String c ""). simpl. rewrite E.
      split; [reflexivity | right; split; [reflexivity | discriminate]].
    + intros [<- | H].
      * destruct (IH l0 (or_introl eq_refl)) as (l & Hl & [-> | [-> _]]).
        -- exists (String c l). simpl. rewrite E, Hl. split; [reflexivity | now left].
        -- exists (String c l). simpl. rewrite E, Hl.
           split; [reflexivity | right; split; [reflexivity | discriminate]].
      * apply IH. now right.
Qed.

(** A body without LF is one piece, whatever CR it holds. *)
Lemma readlines_one (t : string) :
  contains LF t = false -> readlines (t +:+ NL) = [t +:+ NL].
Proof.
  induction t as [|a t IH]; str_simpl; [reflexivity |].
  destruct (Ascii.eqb a LF); [discriminate |]. simpl. intros H.
  now rewrite (IH H).
Qed.

(** The line made of a piece. *)
Lemma strip_piece (l : string) :
  contains LF l = false ->
  rstrip CR (rstrip LF (l +:+ NL)) = rstrip CR l /\
  rstrip CR (rstrip LF l) = rstrip CR l.
Proof.
  intros H.
  assert (last_char l <> Some LF) as Hl.
  { intros E. apply contains_last in E. congruence. }
  unfold NL. rewrite rstrip_app by exact Hl. now rewrite (rstrip_id LF l).
Qed.

End Lines.

(** The reader as modelled: the pieces put together are the body, each
    piece is a line without LF, a run of CR and the final LF (which only
    a last piece may lack), and a body without LF is one piece. *)
Lemma readlines_pieces :
  (forall body : string, glue (readlines body) = body) /\
  (forall body raw : string,
     In raw (readlines body) ->
     let line := Str.rstrip Str.CR (Str.rstrip Str.LF raw) in
     Str.contains Str.LF line = false /\
     Str.last_char line <> Some Str.CR /\
     Str.last_char line <> Some Str.LF /\
     exists k, raw = (line +:+ Str.replicate k Str.CR) +:+ Str.NL \/
               (raw = line +:+ Str.replicate k Str.CR /\ raw <> "")) /\
  (forall t : string,
     Str.contains Str.LF t = false ->
     logical_lines (t +:+ Str.NL) = [Str.rstrip Str.CR t]).
Proof.
  split; [exact readlines_glue |]. split.
  - intros body raw Hin line.
    destruct (readlines_piece body raw Hin) as (l & Hl & Hraw).
    destruct (strip_piece l Hl) as [S1 S2].
    assert (Hline : line = Str.rstrip Str.CR l).
    { unfold line. destruct Hraw as [-> | [-> _]]; assumption. }
    destruct (StrFacts.rstrip_decomp Str.CR l) as [k Hk].
    rewrite <- Hline in Hk.
    assert (Hno : Str.contains Str.LF line = false).
    { rewrite Hk, contains_app in Hl. now apply orb_false_elim in Hl. }
    split; [exact Hno |]. split; [rewrite Hline; apply StrFacts.rstrip_last |].
    split.
    + intros E. apply contains_last in E. congruence.
    + exists k. destruct Hraw as [-> | [-> Hne]]; [left | right; split]; congruence.
  - intros t Ht. unfold logical_lines. rewrite readlines_one by exact Ht.
    simpl. f_equal. now apply strip_piece.
Qed.

(* ===================================================================== *)
(** ** A block of data lines                                              *)
(* ===================================================================== *)

Section Block.
Import Str StrFacts.

Lemma utf8_ok_app (s t : string) (p : list (N * N)) :
  Py.utf8_ok s p = true -> Py.utf8_ok (s +:+ t) p = Py.utf8_ok t [].
Proof.
  revert p. induction s as [|c s IH]; intros p; str_simpl.
  - destruct p; [reflexivity | discriminate].
  - destruct p as [|[lo hi] p].
    + destruct (Py.utf8_lead c); [apply IH | discriminate].
    + destruct (Py.in_range lo hi c); simpl; [apply IH | discriminate].
Qed.

Lemma decode_app (s t : string) :
  Py.decode_utf8 s = inr s -> Py.decode_utf8 t = inr t ->
  Py.decode_utf8 (s +:+ t) = inr (s +:+ t).
Proof.
  unfold Py.decode_utf8. intros Hs Ht.
  destruct (Py.utf8_ok s []) eqn:Es; [|discriminate].
  destruct (Py.utf8_ok t []) eqn:Et; [|discriminate].
  now rewrite (utf8_ok_app s t [] Es), Et.
Qed.

(** The line [data: v] does to the instance what the field [data] with
    value [v] does. *)
Lemma data_line (v : string) (rest : list string) (es : EventSource) :
  plain v ->
  anext_loop (("data: " +:+ v +:+ NL) :: rest) es =
  anext_loop rest (snd (_process_field "data" v es)).
Proof.
  intros (Hu & Hlf & Hcr & Hsp).
  assert (Hd : Py.decode_utf8 ("data: " +:+ v +:+ NL) = inr ("data: " +:+ v +:+ NL)).
  { apply (decode_app "data: " (v +:+ NL)); [reflexivity |].
    apply decode_app; [| reflexivity]. unfold Py.decode_utf8. now rewrite Hu. }
  assert (Hl : rstrip CR (rstrip LF ("data: " +:+ v +:+ NL)) = "data: " +:+ v).
  { assert (last_char ("data: " +:+ v) <> Some LF /\
            last_char ("data: " +:+ v) <> Some CR) as [H1 H2].
    { destruct (string_dec v "") as [-> | Hv]; [split; discriminate |].
      rewrite last_char_app by exact Hv. split; [| exact Hcr].
      intros E. apply contains_last in E. congruence. }
    rewrite <- append_assoc. unfold NL. rewrite rstrip_app by exact H1.
    now apply rstrip_id. }
  simpl anext_loop. rewrite Hd, Hl.
  str_simpl. rewrite (lstrip_id SPACE v Hsp).
  destruct (_process_field "data" v es) as [[e|[]] es1] eqn:E; [| reflexivity].
  discriminate.
Qed.

Lemma data_lines (values : list string) (rest : list string) (es : EventSource) :
  Forall plain values ->
  anext_loop (map (fun v => "data: " +:+ v +:+ NL) values ++ rest) es =
  anext_loop rest (after_data values es).
Proof.
  intros H. revert es. induction H as [|v values Hv _ IH]; intros es; [reflexivity |].
  rewrite map_cons, <- app_comm_cons, data_line by exact Hv. apply IH.
Qed.

(** A block of plain data lines whose last value is not empty, read by an
    instance with empty buffers, gives exactly one event: the loop returns
    it at the blank line with nothing left to read, and its data is what
    the specification describes. *)
Lemma data_block_event (values : list string) (v : string) (es : EventSource) :
  Forall plain (values ++ [v]) -> v <> "" -> _event_data es = "" ->
  exists m es',
    anext_loop (data_block (values ++ [v])) es = (inr (Some m), [], es') /\
    data m = Spec.event_data (values ++ [v]) /\
    anext_loop [] es' = (inr None, [], es').
Proof.
  intros Hall Hv He. unfold data_block. rewrite data_lines by exact Hall.
  assert (Hlast : last_char v <> Some LF).
  { intros E. apply contains_last in E.
    apply Forall_app in Hall as [_ Hp]. inversion Hp as [|? ? (_ & Hlf & _) _]; subst.
    congruence. }
  destruct (data_as_specified values v es He Hv Hlast) as (m & Hm & Hd).
  simpl anext_loop.
  destruct (_dispatch_event (after_data (values ++ [v]) es)) as [[m'|] es'] eqn:D;
    simpl in Hm; [| discriminate].
  injection Hm as ->. exists m, es'. repeat split. exact Hd.
Qed.

End Block.

(* ===================================================================== *)
(** ** Lines on the wire                                                  *)
(* ===================================================================== *)

Section Wire.
Import Str StrFacts.

Lemma split1_app (c : ascii) (s t : string) :
  contains c s = false -> split1 c (s +:+ String c t) = Some (s, t).
Proof.
  induction s as [|a s IH]; str_simpl; [now rewrite Ascii.eqb_refl |].
  destruct (Ascii.eqb a c); [discriminate |]. simpl. intros H.
  now rewrite (IH H).
Qed.

Lemma starts_with_app (c : ascii) (s t : string) :
  s <> "" -> starts_with c (s +:+ t) = starts_with c s.
Proof. destruct s; [congruence | reflexivity]. Qed.

Lemma starts_with_contains (c : ascii) (s : string) :
  contains c s = false -> starts_with c s = false.
Proof.
  destruct s as [|a s]; simpl; [reflexivity |].
  now destruct (Ascii.eqb a c).
Qed.

Lemma decode_ok (s : string) : Py.utf8_ok s [] = true -> Py.decode_utf8 s = inr s.
Proof. unfold Py.decode_utf8. now intros ->. Qed.

(** What the loop does with a line that decodes, by the line stripped of
    its end. *)
Lemma loop_line (raw line : string) (rest : list string) (es : EventSource) :
  Py.decode_utf8 raw = inr line ->
  anext_loop (raw :: rest) es =
  let line := rstrip CR (rstrip LF line) in
  if String.eqb line "" then
    match _dispatch_event es with
    | (Some event, es) => (inr (Some event), rest, es)
    | (None, es) => anext_loop rest es
    end
  else if starts_with COLON line then anext_loop rest es
  else
    let '(name, value) :=
      match split1 COLON line with
      | Some (name, after) => (name, lstrip SPACE after)
      | None => (line, "")
      end in
    match _process_field name value es with
    | (inl e, es) => (inl e, rest, es)
    | (inr _, es) => anext_loop rest es
    end.
Proof.
  intros H. simpl anext_loop. rewrite H. cbv zeta.
  destruct (String.eqb _ ""); [reflexivity |].
  destruct (starts_with COLON _); [reflexivity |].
  destruct (split1 COLON _) as [[? ?]|]; reflexivity.
Qed.

(** The stripped line of [name: value]. *)
Lemma field_line_strip (name value : string) :
  wire_name name -> plain value ->
  Py.decode_utf8 (field_line name value) = inr (field_line name value) /\
  rstrip CR (rstrip LF (field_line name value)) = name +:+ ": " +:+ value.
Proof.
  intros (Hu & Hne & Hcolon & Hlf) (Vu & Vlf & Vcr & Vsp). unfold field_line. split.
  - apply decode_ok. rewrite (utf8_ok_app name _ [] Hu).
    change (": " +:+ value +:+ NL) with (": " +:+ (value +:+ NL)).
    rewrite (utf8_ok_app ": " _ [] eq_refl).
    now rewrite (utf8_ok_app value _ [] Vu).
  - assert (last_char (name +:+ ": " +:+ value) <> Some LF /\
            last_char (name +:+ ": " +:+ value) <> Some CR) as [H1 H2].
    { destruct (string_dec value "") as [-> | Hv].
      - rewrite last_char_app by discriminate. split; discriminate.
      - rewrite last_char_app.
        2:{ intros E. apply append_eq_empty in E. destruct E; congruence. }
        rewrite last_char_app by exact Hv. split; [| exact Vcr].
        intros E. apply contains_last in E. congruence. }
    replace (name +:+ ": " +:+ value +:+ NL) with ((name +:+ ": " +:+ value) +:+ NL)
      by now rewrite !append_assoc.
    unfold NL. rewrite rstrip_app by exact H1. now apply rstrip_id.
Qed.

End Wire.

(** The loop at a line [name: value]. *)
Lemma field_line_step
    (name value : string) (rest : list string) (es : EventSource) :
  wire_name name -> plain value ->
  anext_loop (field_line name value :: rest) es =
  match _process_field name value es with
  | (inl e, es') => (inl e, rest, es')
  | (inr _, es') => anext_loop rest es'
  end.
Proof.
  intros Hn Hv. destruct (field_line_strip name value Hn Hv) as [Hd Hs].
  rewrite (loop_line _ _ rest es Hd). cbv zeta. rewrite Hs.
  destruct Hn as (Hu & Hne & Hcolon & Hlf). destruct Hv as (Vu & Vlf & Vcr & Vsp).
  assert (E1 : String.eqb (name +:+ ": " +:+ value) "" = false).
  { destruct name; [congruence | reflexivity]. }
  rewrite E1.
  rewrite (starts_with_app Str.COLON name _ Hne),
    (starts_with_contains _ _ Hcolon).
  change (name +:+ ": " +:+ value) with (name +:+ String Str.COLON (" " +:+ value)).
  rewrite (split1_app Str.COLON name _ Hcolon).
  change (Str.lstrip Str.SPACE (" " +:+ value)) with (Str.lstrip Str.SPACE value).
  rewrite (StrFacts.lstrip_id Str.SPACE value Vsp).
  destruct (_process_field name value es) as [[e|u] es']; reflexivity.
Qed.


(** X1. The line [name: value] that a server writes for a field reaches
    [_process_field] as exactly that name and that value: the loop goes on
    with the instance the call leaves, or raises what the call raises. *)
Theorem X1_field_line_is_parsed_back
    (name value : string) (rest : list string) (es : EventSource) :
  wire_name name -> plain value ->
  anext_loop (field_line name value :: rest) es =
  match _process_field name value es with
  | (inl e, es') => (inl e, rest, es')
  | (inr _, es') => anext_loop rest es'
  end.
Proof. apply field_line_step. Qed.

(** The line [event: tick] before a data line and a blank line: the
    loop goes on with the type buffer set to [tick]. *)
Lemma X1_field_line_is_parsed_back_witness :
  wire_name "event" /\ plain "tick" /\
  anext_loop (field_line "event" "tick" :: [field_line "data" "1"; Str.NL]) fresh =
  anext_loop [field_line "data" "1"; Str.NL]
             (snd (_process_field "event" "tick" fresh)).
Proof.
  assert (Hn : wire_name "event").
  { repeat split; try reflexivity; discriminate. }
  assert (Hv : plain "tick").
  { repeat split; try reflexivity; discriminate. }
  split; [exact Hn |]. split; [exact Hv |].
  exact (X1_field_line_is_parsed_back "event" "tick"
           [field_line "data" "1"; Str.NL] fresh Hn Hv).
Defined.

(* ===================================================================== *)
(** ** Lines that change nothing                                          *)
(* ===================================================================== *)

Section Skipped.
Import Str StrFacts.

(** The stripped line is the same whatever comes after the head: the
    outcome of the loop at one line is fixed by the line and the
    instance, and what remains is carried along. *)
Lemma loop_result_cons (raw : string) (rest1 rest2 : list string) (es : EventSource) :
  (forall es', loop_result rest1 es' = loop_result rest2 es') ->
  loop_result (raw :: rest1) es = loop_result (raw :: rest2) es.
Proof.
  intros H. unfold loop_result in *. simpl anext_loop.
  destruct (Py.decode_utf8 raw) as [e|line]; [reflexivity |].
  destruct (String.eqb _ "").
  { destruct (_dispatch_event es) as [[m|] es1]; [reflexivity | apply H]. }
  destruct (starts_with COLON _); [apply H |].
  destruct (split1 COLON _) as [[name after]|].
  - destruct (_process_field name _ es) as [[e|u] es1]; [reflexivity | apply H].
  - destruct (_process_field _ "" es) as [[e|u] es1]; [reflexivity | apply H].
Qed.

(** A line the loop passes over can stand anywhere in the stream. *)
Lemma skip_anywhere (raw : string) :
  (forall rest es, anext_loop (raw :: rest) es = anext_loop rest es) ->
  forall before after es,
    loop_result (before ++ raw :: after) es = loop_result (before ++ after) es.
Proof.
  intros Hskip before after. induction before as [|b before IH]; intros es.
  - simpl app. unfold loop_result. now rewrite Hskip.
  - rewrite <- !app_comm_cons. apply loop_result_cons. exact IH.
Qed.

Lemma comment_is_skipped (raw : string) :
  comment_line raw -> forall rest es, anext_loop (raw :: rest) es = anext_loop rest es.
Proof.
  intros (line & Hd & Hc) rest es. rewrite (loop_line _ _ rest es Hd). cbv zeta.
  rewrite Hc. destruct (rstrip CR (rstrip LF line)); [discriminate | reflexivity].
Qed.

Lemma unknown_field_unchanged (name value : string) (es : EventSource) :
  known_field name = false -> _process_field name value es = (inr tt, es).
Proof.
  unfold known_field, _process_field. intros H.
  repeat (apply orb_false_elim in H; destruct H as [H ?]).
  now repeat match goal with E : String.eqb _ _ = false |- _ => rewrite E; clear E end.
Qed.

Lemma unknown_is_skipped (raw name : string) :
  field_name_of raw = Some name -> known_field name = false ->
  forall rest es, anext_loop (raw :: rest) es = anext_loop rest es.
Proof.
  unfold field_name_of. intros Hn Hk rest es. simpl anext_loop.
  destruct (Py.decode_utf8 raw) as [e|line]; [discriminate |].
  cbv zeta in Hn. destruct (String.eqb _ ""); [discriminate |].
  destruct (starts_with COLON _); [discriminate |].
  destruct (split1 COLON _) as [[n after]|]; injection Hn as ->;
    now rewrite unknown_field_unchanged.
Qed.

End Skipped.

(** X2. A comment line, one that starts with a colon, is passed over
    wherever it stands in the stream: with it or without it the loop of
    [__anext__] gives the same outcome and leaves the same instance. *)
Theorem X2_comment_line_changes_nothing
    (raw : string) (before after : list string) (es : EventSource) :
  comment_line raw ->
  loop_result (before ++ raw :: after) es = loop_result (before ++ after) es.
Proof. intros H. apply skip_anywhere. now apply comment_is_skipped. Qed.

(** A comment between two data lines: the event is that of the two data
    lines. *)
Lemma X2_comment_line_changes_nothing_witness :
  comment_line (": keep-alive" +:+ Str.NL) /\
  loop_result ([field_line "data" "a"] ++ (": keep-alive" +:+ Str.NL)
                 :: [field_line "data" "b"; Str.NL]) fresh =
  loop_result ([field_line "data" "a"] ++ [field_line "data" "b"; Str.NL]) fresh.
Proof.
  assert (H : comment_line (": keep-alive" +:+ Str.NL)).
  { eexists. split; reflexivity. }
  split; [exact H |].
  exact (X2_comment_line_changes_nothing _ [field_line "data" "a"]
           [field_line "data" "b"; Str.NL] fresh H).
Defined.

(** X3. A line whose field name is none of [event], [data], [id] and
    [retry] is passed over wherever it stands in the stream: the outcome
    and the instance are what they are without it. *)
Theorem X3_unknown_field_changes_nothing
    (raw name : string) (before after : list string) (es : EventSource) :
  field_name_of raw = Some name -> known_field name = false ->
  loop_result (before ++ raw :: after) es = loop_result (before ++ after) es.
Proof. intros Hn Hk. apply skip_anywhere. now apply (unknown_is_skipped raw name). Qed.

(** A field [foo] before a data line. *)
Lemma X3_unknown_field_changes_nothing_witness :
  field_name_of (field_line "foo" "bar") = Some "foo" /\
  known_field "foo" = false /\
  loop_result ([] ++ field_line "foo" "bar" :: [field_line "data" "b"; Str.NL]) fresh =
  loop_result ([] ++ [field_line "data" "b"; Str.NL]) fresh.
Proof.
  split; [reflexivity |]. split; [reflexivity |].
  exact (X3_unknown_field_changes_nothing (field_line "foo" "bar") "foo" []
           [field_line "data" "b"; Str.NL] fresh eq_refl eq_refl).
Defined.

(* ===================================================================== *)
(** ** Lines without colon, lines ended by CRLF                           *)
(* ===================================================================== *)

(** X4. A line without colon is a field with that line as its name and
    the empty text as its value: the loop hands both to [_process_field]
    and goes on, or raises what the call raises. *)
Theorem X4_line_without_colon_is_a_field_with_empty_value
    (name : string) (rest : list string) (es : EventSource) :
  wire_name name -> Str.last_char name <> Some Str.CR ->
  anext_loop ((name +:+ Str.NL) :: rest) es =
  match _process_field name "" es with
  | (inl e, es') => (inl e, rest, es')
  | (inr _, es') => anext_loop rest es'
  end.
Proof.
  intros (Hu & Hne & Hcolon & Hlf) Hcr.
  assert (Hd : Py.decode_utf8 (name +:+ Str.NL) = inr (name +:+ Str.NL)).
  { apply decode_ok. now rewrite (utf8_ok_app name _ [] Hu). }
  assert (Hs : Str.rstrip Str.CR (Str.rstrip Str.LF (name +:+ Str.NL)) = name).
  { unfold Str.NL. rewrite rstrip_app.
    - now apply StrFacts.rstrip_id.
    - intros E. apply contains_last in E. congruence. }
  rewrite (loop_line _ _ rest es Hd). cbv zeta. rewrite Hs.
  assert (E1 : String.eqb name "" = false) by (destruct name; [congruence | reflexivity]).
  rewrite E1, (starts_with_contains _ _ Hcolon).
  apply StrFacts.split1_none in Hcolon. rewrite Hcolon.
  destruct (_process_field name "" es) as [[e|u] es']; reflexivity.
Qed.

(** The line [data] alone adds an empty value to the data of the event. *)
Lemma X4_line_without_colon_is_a_field_with_empty_value_witness :
  wire_name "data" /\ Str.last_char "data" <> Some Str.CR /\
  anext_loop (("data" +:+ Str.NL) :: [Str.NL]) fresh =
  anext_loop [Str.NL] (snd (_process_field "data" "" fresh)).
Proof.
  assert (Hn : wire_name "data") by (repeat split; try reflexivity; discriminate).
  assert (Hc : Str.last_char "data" <> Some Str.CR) by discriminate.
  split; [exact Hn |]. split; [exact Hc |].
  exact (X4_line_without_colon_is_a_field_with_empty_value "data" [Str.NL] fresh Hn Hc).
Defined.

Section SameLines.
Import Str StrFacts.

(** Streams whose lines agree once decoded and stripped give the same
    outcome and the same instance. *)
Lemma same_lines_same_result (lines1 lines2 : list string) :
  Forall2 same_line lines1 lines2 ->
  forall es, loop_result lines1 es = loop_result lines2 es.
Proof.
  induction 1 as [|raw1 raw2 rest1 rest2 (l1 & l2 & H1 & H2 & Hs) _ IH]; intros es;
    [reflexivity |].
  unfold loop_result in *.
  rewrite (loop_line _ _ rest1 es H1), (loop_line _ _ rest2 es H2). cbv zeta.
  rewrite Hs.
  destruct (String.eqb _ "").
  { destruct (_dispatch_event es) as [[m|] es1]; [reflexivity | apply IH]. }
  destruct (starts_with COLON _); [apply IH |].
  destruct (match split1 COLON _ with Some _ => _ | None => _ end) as [name value].
  destruct (_process_field name value es) as [[e|u] es1]; [reflexivity | apply IH].
Qed.

Lemma crlf_same_line (l : string) :
  line_text l -> same_line (l +:+ RET +:+ NL) (l +:+ NL).
Proof.
  intros [Hu Hlf]. exists (l +:+ RET +:+ NL), (l +:+ NL). repeat split.
  - apply decode_ok. now rewrite (utf8_ok_app l _ [] Hu).
  - apply decode_ok. now rewrite (utf8_ok_app l _ [] Hu).
  - assert (Hl : last_char l <> Some LF).
    { intros E. apply contains_last in E. congruence. }
    unfold NL at 2. rewrite (rstrip_app LF l Hl).
    replace (l +:+ RET +:+ NL) with ((l +:+ RET) +:+ NL) by now rewrite append_assoc.
    unfold NL. rewrite rstrip_app.
    2:{ rewrite last_char_app by discriminate. discriminate. }
    change RET with (replicate 1 CR). apply rstrip_app_replicate.
Qed.

End SameLines.

(** X5. Lines ended by CRLF are read as the same lines ended by LF: the
    two streams give the same outcome and leave the same instance. *)
Theorem X5_CRLF_reads_as_LF (texts : list string) (es : EventSource) :
  Forall line_text texts ->
  loop_result (map (fun l => l +:+ Str.RET +:+ Str.NL) texts) es =
  loop_result (map (fun l => l +:+ Str.NL) texts) es.
Proof.
  intros H. apply same_lines_same_result.
  induction H as [|l texts Hl _ IH]; simpl; constructor; [| exact IH].
  now apply crlf_same_line.
Qed.

(** A block of two lines and its blank line, ended either way. *)
Lemma X5_CRLF_reads_as_LF_witness :
  Forall line_text ["id: 7"; "data: x"; ""] /\
  fst (loop_result (map (fun l => l +:+ Str.RET +:+ Str.NL) ["id: 7"; "data: x"; ""]) fresh)
  = fst (loop_result (map (fun l => l +:+ Str.NL) ["id: 7"; "data: x"; ""]) fresh).
Proof.
  assert (H : Forall line_text ["id: 7"; "data: x"; ""]).
  { repeat constructor. }
  split; [exact H |].
  exact (f_equal fst (X5_CRLF_reads_as_LF ["id: 7"; "data: x"; ""] fresh H)).
Defined.

(* ===================================================================== *)
(** ** Events, one call after the other                                   *)
(* ===================================================================== *)

Section Events.
Import Str StrFacts.

(** An event the loop returns was dispatched from an instance that has
    every property the start had and the methods maintain. *)
Lemma loop_event_inv (I : EventSource -> Prop) :
  (forall es, I es -> I (snd (_dispatch_event es))) ->
  (forall n v es, I es -> I (snd (_process_field n v es))) ->
  forall lines es m rest es',
    I es -> anext_loop lines es = (inr (Some m), rest, es') ->
    exists es1, I es1 /\ _dispatch_event es1 = (Some m, es').
Proof.
  intros Hd Hp lines. induction lines as [|raw lines IH]; intros es m rest es' HI;
    [discriminate |].
  simpl anext_loop. destruct (Py.decode_utf8 raw) as [e|line]; [discriminate |].
  destruct (String.eqb _ "").
  { pose proof (Hd es HI) as K.
    destruct (_dispatch_event es) as [[m1|] es1] eqn:D.
    - intros [= <- _ <-]. eauto.
    - now apply IH. }
  destruct (starts_with COLON _); [now apply IH |].
  destruct (split1 COLON _) as [[name after]|].
  - pose proof (Hp name (lstrip SPACE after) es HI) as K.
    destruct (_process_field name _ es) as [[e|u] es1]; [discriminate | now apply IH].
  - pose proof (Hp (rstrip CR (rstrip LF line)) "" es HI) as K.
    destruct (_process_field _ "" es) as [[e|u] es1]; [discriminate | now apply IH].
Qed.

(** What the loop leaves to read is the end of what it was given, and it
    answers [None] only when nothing is left. *)
Lemma loop_rest (lines : list string) (es : EventSource) :
  exists read, lines = (read ++ snd (fst (anext_loop lines es)))%list /\
    (fst (fst (anext_loop lines es)) = inr None ->
     snd (fst (anext_loop lines es)) = []).
Proof.
  revert es. induction lines as [|raw lines IH]; intros es.
  - exists []. split; reflexivity.
  - assert (Hgo : forall es1, exists read,
              raw :: lines = (read ++ snd (fst (anext_loop lines es1)))%list /\
              (fst (fst (anext_loop lines es1)) = inr None ->
               snd (fst (anext_loop lines es1)) = [])).
    { intros es1. destruct (IH es1) as (read & H1 & H2).
      exists (raw :: read). split; [simpl; congruence | exact H2]. }
    assert (Hstop : forall (r : result (option MessageEvent)) (es1 : EventSource),
              r <> inr None ->
              exists read, raw :: lines = (read ++ snd (fst (r, lines, es1)))%list /\
                (fst (fst (r, lines, es1)) = inr None -> snd (fst (r, lines, es1)) = [])).
    { intros r es1 Hr. exists [raw]. split; [reflexivity | simpl; congruence]. }
    simpl anext_loop. destruct (Py.decode_utf8 raw) as [e|line];
      [apply Hstop; discriminate |].
    destruct (String.eqb _ "").
    { destruct (_dispatch_event es) as [[m1|] es1];
        [apply Hstop; discriminate | apply Hgo]. }
    destruct (starts_with COLON _); [apply Hgo |].
    destruct (split1 COLON _) as [[name after]|].
    + destruct (_process_field name _ es) as [[e|u] es1];
        [apply Hstop; discriminate | apply Hgo].
    + destruct (_process_field _ "" es) as [[e|u] es1];
        [apply Hstop; discriminate | apply Hgo].
Qed.

Lemma dispatch_event_shape (es es' : EventSource) (m : MessageEvent) :
  _dispatch_event es = (Some m, es') ->
  origin m = _origin es /\ last_event_id m = _last_event_id es' /\
  last_event_id m = _event_id es' /\ _event_type es' = "" /\ _event_data es' = "" /\
  last_char (data m) <> Some LF.
Proof.
  intros H. pose proof (dispatch_state es) as K. rewrite H in K. simpl in K.
  destruct K as (K1 & K2 & K3 & K4 & _).
  unfold _dispatch_event in H. simpl in H.
  destruct (String.eqb (_event_data es) ""); [discriminate |].
  injection H as <- _. simpl. repeat split; try congruence.
  apply rstrip_last.
Qed.

End Events.

(** X6. When [__anext__] returns an event, the world is as it was, the
    type and data buffers of the instance are empty, the last event id of
    the instance and its id buffer are the id of the event, the origin of
    the event is the origin the instance had, and the data of the event
    does not end in a line feed. *)
Theorem X6_instance_after_an_event
    (es es' : EventSource) (w w' : World) (m : MessageEvent) :
  __anext__ es w = (inr (Some m), es', w') ->
  w' = w /\
  _event_type es' = "" /\ _event_data es' = "" /\
  _last_event_id es' = last_event_id m /\ _event_id es' = last_event_id m /\
  origin m = _origin es /\
  Str.last_char (data m) <> Some Str.LF.
Proof.
  unfold __anext__. destruct (_response es) as [r|]; [| discriminate].
  destruct (anext_loop (content r) es) as [[res rest] es1] eqn:E.
  intros [= -> <- <-]. split; [reflexivity |].
  destruct (loop_event_inv (fun x => _origin x = _origin es)
              ltac:(intros x Hx; rewrite <- Hx; apply dispatch_state)
              ltac:(intros n v x Hx; rewrite <- Hx; apply process_field_frame)
              _ _ _ _ _ eq_refl E) as (es0 & Ho & D).
  destruct (dispatch_event_shape _ _ _ D) as (H1 & H2 & H3 & H4 & H5 & H6).
  simpl. repeat split; congruence.
Qed.

(** The event of the block [id: 7], [data: x]. *)
Lemma X6_instance_after_an_event_witness :
  let es := fst (connected (field_line "id" "7" +:+ field_line "data" "x" +:+ Str.NL)) in
  let w := snd (connected (field_line "id" "7" +:+ field_line "data" "x" +:+ Str.NL)) in
  exists m es', __anext__ es w = (inr (Some m), es', w) /\
    _last_event_id es' = last_event_id m /\ _event_data es' = "".
Proof.
  intros es w.
  destruct (__anext__ es w) as [[r es'] w'] eqn:E.
  assert (H : exists m, r = inr (Some m) /\ w' = w).
  { vm_compute in E. injection E as <- _ <-. eexists. split; reflexivity. }
  destruct H as (m & -> & ->).
  destruct (X6_instance_after_an_event es es' w w m E) as (_ & _ & H3 & H4 & _).
  exists m, es'. repeat split; assumption.
Defined.

(** X7. [__anext__] reads the lines of the response once and in order:
    the lines the response holds afterwards are the end of those it held
    before, its status and origin are untouched, and [None] is returned
    only when no line is left. *)
Theorem X7_lines_are_read_in_order
    (es : EventSource) (w : World) (response : ClientResponse) :
  _response es = Some response ->
  exists read response',
    _response (snd (fst (__anext__ es w))) = Some response' /\
    content response = (read ++ content response')%list /\
    status response' = status response /\
    real_url_origin response' = real_url_origin response /\
    (fst (fst (__anext__ es w)) = inr None -> content response' = []).
Proof.
  intros H. unfold __anext__. rewrite H.
  destruct (loop_rest (content response) es) as (read & H1 & H2).
  destruct (anext_loop (content response) es) as [[r rest] es1]. simpl in *.
  exists read, (set_content rest response). repeat split; assumption.
Qed.

(** Two blocks: the first call leaves the second block to read. *)
Lemma X7_lines_are_read_in_order_witness :
  let body := field_line "data" "a" +:+ Str.NL +:+ field_line "data" "b" +:+ Str.NL in
  let es := fst (connected body) in
  let w := snd (connected body) in
  exists response read response',
    _response es = Some response /\
    _response (snd (fst (__anext__ es w))) = Some response' /\
    content response = (read ++ content response')%list /\
    content response' = [field_line "data" "b"; Str.NL].
Proof.
  intros body es w.
  destruct (_response es) as [response|] eqn:R; [| vm_compute in R; discriminate].
  destruct (X7_lines_are_read_in_order es w response R)
    as (read & response' & H1 & H2 & _).
  exists response, read, response'. repeat split; try assumption.
  vm_compute in H1. injection H1 as <-. reflexivity.
Defined.

(* ===================================================================== *)
(** ** A stream of blocks                                                 *)
(* ===================================================================== *)

Section Blocks.
Import Str StrFacts.

Lemma data_buffer_nonempty (values : list string) :
  values <> [] -> Spec.data_buffer values <> "".
Proof.
  destruct values as [|v values]; [congruence |]. intros _. simpl.
  intros E. apply append_eq_empty in E as [E _].
  apply append_eq_empty in E as [_ E]. discriminate.
Qed.

Lemma after_data_frame (values : list string) (es : EventSource) :
  _event_id (after_data values es) = _event_id es /\
  _event_type (after_data values es) = _event_type es /\
  _origin (after_data values es) = _origin es.
Proof.
  revert es. unfold after_data.
  induction values as [|v values IH]; intros es; cbn [fold_left]; [tauto |].
  destruct (IH (snd (_process_field "data" v es))) as (H1 & H2 & H3).
  rewrite H1, H2, H3. repeat split.
Qed.

(** A block of data lines read into an empty data buffer: the loop
    returns one event at the blank line and leaves what follows. *)
Lemma block_event (values : list string) (rest : list string) (es : EventSource) :
  data_values values -> _event_data es = "" ->
  exists m es',
    anext_loop (data_block values ++ rest) es = (inr (Some m), rest, es') /\
    data m = rstrip LF (Spec.data_buffer values) /\
    last_event_id m = _event_id es /\
    _event_data es' = "" /\ _event_id es' = _event_id es.
Proof.
  intros [Hne Hall] He. unfold data_block.
  rewrite <- app_assoc, data_lines by exact Hall.
  assert (B : _event_data (after_data values es) = Spec.data_buffer values).
  { now rewrite after_data_buffer, He. }
  destruct (dispatch_nonempty (after_data values es)) as (m & Hm & Hd & _ & _ & _ & Hid).
  { rewrite B. now apply data_buffer_nonempty. }
  pose proof (dispatch_state (after_data values es)) as K.
  destruct (after_data_frame values es) as (F1 & _).
  simpl app. simpl anext_loop.
  destruct (_dispatch_event (after_data values es)) as [[m'|] es'] eqn:D;
    simpl in Hm; [| discriminate].
  injection Hm as ->. simpl in K. destruct K as (_ & _ & K3 & K4 & _).
  exists m, es'. repeat split; congruence.
Qed.

End Blocks.

(** X8. A response that holds a sequence of blocks, each of one or more
    plain data lines and a blank line, read by an instance whose data
    buffer is empty: as many calls of [__anext__] as there are blocks
    return one event per block, in the order of the blocks and without
    raising, the data of each being the values of its block, each value
    followed by a line feed, with the line feeds at the end taken away;
    after them no line is left. *)
Theorem X8_one_event_per_block_in_order
    (blocks : list (list string)) (es : EventSource) (w : World)
    (response : ClientResponse) :
  Forall data_values blocks ->
  _response es = Some response ->
  content response = concat (map data_block blocks) ->
  _event_data es = "" ->
  exists events es',
    consume (length blocks) es w = (events, None, es', w) /\
    map (option_map data) events =
      map (fun values => Some (Str.rstrip Str.LF (Spec.data_buffer values))) blocks /\
    option_map content (_response es') = Some [].
Proof.
  intros Hall. revert es response.
  induction Hall as [|values blocks Hv _ IH]; intros es response Hr Hc He.
  - exists [], es. simpl. rewrite Hr. simpl. rewrite Hc. repeat split.
  - simpl in Hc.
    destruct (block_event values (concat (map data_block blocks)) es Hv He)
      as (m & es1 & Hloop & Hd & _ & He1 & _).
    set (es2 := set_response
                  (Some (set_content (concat (map data_block blocks)) response)) es1).
    assert (Hnext : __anext__ es w = (inr (Some m), es2, w)).
    { unfold __anext__. rewrite Hr, Hc, Hloop. reflexivity. }
    destruct (IH es2 (set_content (concat (map data_block blocks)) response)
                eq_refl eq_refl He1) as (events & es' & Hcons & Hdata & Hleft).
    exists (Some m :: events), es'. split; [| split].
    + simpl consume. rewrite Hnext, Hcons. reflexivity.
    + simpl. now rewrite Hd, Hdata.
    + exact Hleft.
Qed.

(** Two blocks, the first of two values: the events carry ["a\nb"] and
    ["c"], in that order. *)
Lemma X8_one_event_per_block_in_order_witness :
  let blocks := [["a"; "b"]; ["c"]] in
  let response := mkClientResponse 200 (concat (map data_block blocks)) "http://example.org" in
  let es := set_response (Some response) fresh in
  Forall data_values blocks /\
  exists events es',
    consume 2 es (served "") = (events, None, es', served "") /\
    map (option_map data) events = [Some ("a" +:+ Str.NL +:+ "b"); Some "c"].
Proof.
  intros blocks response es.
  assert (H : Forall data_values blocks).
  { repeat constructor; try discriminate; reflexivity. }
  split; [exact H |].
  destruct (X8_one_event_per_block_in_order blocks es (served "") response H
              eq_refl eq_refl eq_refl) as (events & es' & H1 & H2 & _).
  exists events, es'. split; [exact H1 | exact H2].
Defined.

(* ===================================================================== *)
(** ** The life of an instance                                            *)
(* ===================================================================== *)

Section Life.

(** What [_connect] leaves alone, however it ends. *)
Lemma connect_frame (es : EventSource) (w : World) :
  let es' := snd (fst (_connect es w)) in
  _url es' = _url es /\ _with_credentials es' = _with_credentials es /\
  _need_close_session es' = _need_close_session es /\
  _reconnection_time es' = _reconnection_time es /\
  _last_event_id es' = _last_event_id es /\ _event_id es' = _event_id es /\
  _event_type es' = _event_type es /\ _event_data es' = _event_data es.
Proof.
  unfold _connect.
  destruct (_kwargs es !! "headers") as [[| | | |h]|]; simpl; try tauto.
  unfold session_get. destruct (script w) as [|[e|r] rs]; simpl; try tauto.
  destruct (400 <=? status r); simpl; try tauto.
  unfold _connected. destruct (negb _); simpl; tauto.
Qed.

(** The ready state after [_connect]: what it was, or OPEN when it was
    not CLOSED. *)
Lemma connect_ready_state (es : EventSource) (w : World) :
  let es' := snd (fst (_connect es w)) in
  _ready_state es' = _ready_state es \/
  (_ready_state es <> READY_STATE_CLOSED /\ _ready_state es' = READY_STATE_OPEN).
Proof.
  unfold _connect.
  destruct (_kwargs es !! "headers") as [[| | | |h]|]; simpl; try tauto.
  unfold session_get. destruct (script w) as [|[e|r] rs]; simpl; try tauto.
  destruct (400 <=? status r); simpl; try tauto.
  unfold _connected. simpl.
  destruct (Z.eqb_spec (_ready_state es) READY_STATE_CLOSED); simpl; tauto.
Qed.

Lemma dispatch_fixed (es0 es : EventSource) :
  fixed es0 es -> fixed es0 (snd (_dispatch_event es)).
Proof.
  unfold fixed, _dispatch_event. simpl.
  destruct (String.eqb (_event_data es) ""); simpl; tauto.
Qed.

Lemma process_field_fixed (n v : string) (es0 es : EventSource) :
  fixed es0 es -> fixed es0 (snd (_process_field n v es)).
Proof.
  unfold fixed, _process_field.
  repeat match goal with
         | |- context [if ?b then _ else _] => destruct b
         | |- context [match ?x with _ => _ end] => destruct x
         end; simpl; tauto.
Qed.

Lemma anext_fixed (es : EventSource) (w : World) :
  fixed es (snd (fst (__anext__ es w))).
Proof.
  unfold __anext__. destruct (_response es) as [r|]; [| unfold fixed; tauto].
  pose proof (anext_loop_inv (fixed es) (dispatch_fixed es)
                (fun n v => process_field_fixed n v es) (content r) es) as K.
  destruct (anext_loop (content r) es) as [[res rest] es1]. simpl in *.
  apply K. unfold fixed. tauto.
Qed.

(** One call: the URL, the credentials flag and the ownership of the
    session stay, and the ready state stays or becomes OPEN from a state
    other than CLOSED. *)
Lemma call_life (es es' : EventSource) :
  call es es' ->
  _url es' = _url es /\ _with_credentials es' = _with_credentials es /\
  _need_close_session es' = _need_close_session es /\
  (_ready_state es' = _ready_state es \/
   (_ready_state es <> READY_STATE_CLOSED /\ _ready_state es' = READY_STATE_OPEN)).
Proof.
  intros [e w | e w | e w | e | n v e].
  - pose proof (connect_frame e w) as K. pose proof (connect_ready_state e w).
    simpl in K. tauto.
  - pose proof (connect_frame e w) as K. pose proof (connect_ready_state e w).
    unfold __aenter__. simpl in K. tauto.
  - pose proof (anext_fixed e w) as K. unfold fixed in K. tauto.
  - pose proof (dispatch_fixed e e) as K. unfold fixed in K. tauto.
  - pose proof (process_field_fixed n v e e) as K. unfold fixed in K. tauto.
Qed.

End Life.



(** X10. Over any chain of method calls the ready state only moves from
    CONNECTING to OPEN: an instance that is CLOSED stays CLOSED, one that
    is OPEN stays OPEN, and one that is CONNECTING is CONNECTING or OPEN
    afterwards. *)
Theorem X10_ready_state_only_opens (es es' : EventSource) :
  reaches es es' ->
  (ready_state es = READY_STATE_CLOSED -> ready_state es' = READY_STATE_CLOSED) /\
  (ready_state es = READY_STATE_OPEN -> ready_state es' = READY_STATE_OPEN) /\
  (ready_state es = READY_STATE_CONNECTING ->
   ready_state es' = READY_STATE_CONNECTING \/ ready_state es' = READY_STATE_OPEN).
Proof.
  unfold ready_state. induction 1 as [x | x y z Hxy _ IH]; [tauto |].
  destruct (call_life x y Hxy) as (_ & _ & _ & [E | [Hn E]]).
  - rewrite <- E. exact IH.
  - destruct IH as (IH1 & IH2 & IH3). repeat split; intros Hx.
    + contradiction.
    + apply IH2. exact E.
    + right. apply IH2. exact E.
Qed.

(** A fresh instance is CONNECTING; after a connect that the server
    accepts and a call of [__anext__] it is OPEN. *)
Lemma X10_ready_state_only_opens_witness :
  let es1 := fst (connected "") in
  let es2 := snd (fst (__anext__ es1 (snd (connected "")))) in
  reaches fresh es2 /\ ready_state fresh = READY_STATE_CONNECTING /\
  (ready_state es2 = READY_STATE_CONNECTING \/ ready_state es2 = READY_STATE_OPEN).
Proof.
  intros es1 es2.
  assert (H : reaches fresh es2).
  { apply (rtc_l _ _ es1).
    - exact (call_connect fresh (served "")).
    - apply rtc_once. exact (call_anext es1 (snd (connected ""))). }
  split; [exact H |]. split; [reflexivity |].
  destruct (X10_ready_state_only_opens fresh es2 H) as (_ & _ & H3).
  exact (H3 eq_refl).
Defined.

(** X11. No method writes the URL, the credentials flag or the ownership
    of the session: after any chain of method calls [url] and
    [with_credentials] return what they returned before it and
    [__aexit__] does to the session what it would have done before it.
    For an instance made by [__init__], [with_credentials] is therefore
    the entry of that name in the options, [False] without options or
    without the entry, and [__aexit__] closes the session exactly when the
    caller supplied none. What [url] returns is the value [__init__]
    stored, whatever [URL] made of the text. *)
Theorem X11_accessors_and_session_ownership_are_fixed (es0 es : EventSource) :
  reaches es0 es ->
  url es = url es0 /\
  with_credentials es = with_credentials es0 /\
  (forall closed, __aexit__ es closed = __aexit__ es0 closed) /\
  (forall (u : string) (option : option (gmap string pyval))
          (reconnection_time : Z) (session : bool) (kwargs : gmap string pyval),
     es0 = __init__ u option reconnection_time session kwargs ->
     with_credentials es =
       match option with
       | Some o => default (VBool false) (o !! "with_credentials")
       | None => VBool false
       end /\
     forall closed, __aexit__ es closed = if session then closed else true).
Proof.
  unfold url, with_credentials, __aexit__. intros H.
  assert (K : _url es = _url es0 /\ _with_credentials es = _with_credentials es0 /\
              _need_close_session es = _need_close_session es0).
  { induction H as [x | x y z Hxy _ IH]; [tauto |].
    destruct (call_life x y Hxy) as (H1 & H2 & H3 & _).
    rewrite <- H1, <- H2, <- H3. exact IH. }
  destruct K as (K1 & K2 & K3). rewrite K1, K2, K3.
  split; [reflexivity |]. split; [reflexivity |]. split; [reflexivity |].
  intros u option rt session kwargs ->. simpl.
  split; [reflexivity |]. intros closed. destruct session; reflexivity.
Qed.

(** An instance made with the option [with_credentials] and a session of
    the caller, after a connect: the option is read back and the session
    is left open. *)
Lemma X11_accessors_and_session_ownership_are_fixed_witness :
  let es0 := __init__ "http://example.org/sse"
               (Some {[ "with_credentials" := VBool true ]})
               DEFAULT_RECONNECTION_TIME true ∅ in
  let es := snd (fst (_connect es0 (served ""))) in
  reaches es0 es /\ url es = url es0 /\
  with_credentials es = VBool true /\ __aexit__ es false = false.
Proof.
  intros es0 es.
  assert (H : reaches es0 es) by (apply rtc_once; exact (call_connect es0 (served ""))).
  split; [exact H |].
  destruct (X11_accessors_and_session_ownership_are_fixed es0 es H)
    as (H1 & _ & _ & H4).
  assert (E : exists u o r s k, es0 = __init__ u o r s k /\
                o = Some {[ "with_credentials" := VBool true ]} /\ s = true).
  { unfold es0. do 5 eexists. repeat split. }
  destruct E as (u & o & r & s0 & k & E & -> & ->).
  destruct (H4 u _ r true k E) as (H5 & H6).
  split; [exact H1 |]. split; [exact H5 |]. exact (H6 false).
Defined.

(** X12. [_connect] on an instance whose keyword arguments hold a header
    mapping issues one request, to the URL of the instance and with the
    keyword arguments the instance holds afterwards. In them the mapping
    has [Accept] and [Cache-Control] set to the values of the module,
    whatever the caller had put there, every header of another name (but
    [Last-Event_ID]) as the caller gave it, and every other keyword
    argument is passed on unchanged. *)
Theorem X12_connect_passes_the_callers_headers_on
    (es : EventSource) (w : World) (h : gmap string string) :
  _kwargs es !! "headers" = Some (VDict h) ->
  let es' := snd (fst (_connect es w)) in
  let w' := snd (_connect es w) in
  exists h',
    _kwargs es' !! "headers" = Some (VDict h') /\
    requests w' = (requests w ++ [(_url es, _kwargs es')])%list /\
    h' !! "Accept" = Some "text/event-stream" /\
    h' !! "Cache-Control" = Some "no-cache" /\
    (forall name, name <> "Accept" -> name <> "Cache-Control" ->
                  name <> "Last-Event_ID" -> h' !! name = h !! name) /\
    (forall key, key <> "headers" -> _kwargs es' !! key = _kwargs es !! key).
Proof.
  intros H es' w'.
  destruct (connect_request es w h H) as (Hreq & _ & _ & Hk).
  fold es' in Hk. fold w' in Hreq.
  eexists. rewrite Hk. split; [apply lookup_insert_eq |].
  split; [exact Hreq |]. unfold hdrs.ACCEPT, hdrs.CACHE_CONTROL, CONTENT_TYPE_EVENT_STREAM.
  split; [| split; [| split]].
  - rewrite lookup_insert_ne by discriminate.
    rewrite lookup_insert_ne by discriminate. apply lookup_insert_eq.
  - apply lookup_insert_eq.
  - intros name H1 H2 H3.
    rewrite !lookup_insert_ne by congruence. reflexivity.
  - intros key Hkey. rewrite lookup_insert_ne by congruence. reflexivity.
Qed.

(** A caller who passes [Authorization] and a timeout: both reach the
    request. *)
Lemma X12_connect_passes_the_callers_headers_on_witness :
  let h : gmap string string := {[ "Authorization" := "Bearer t" ]} in
  let kwargs : gmap string pyval := {[ "headers" := VDict h; "timeout" := VInt 5 ]} in
  let es := __init__ "http://example.org/sse" None DEFAULT_RECONNECTION_TIME false kwargs in
  _kwargs es !! "headers" = Some (VDict h) /\
  exists h', _kwargs (snd (fst (_connect es (served "")))) !! "headers" = Some (VDict h') /\
    h' !! "Authorization" = Some "Bearer t" /\ h' !! "Accept" = Some "text/event-stream" /\
    _kwargs (snd (fst (_connect es (served "")))) !! "timeout" = Some (VInt 5).
Proof.
  intros h kwargs es.
  assert (H : _kwargs es !! "headers" = Some (VDict h)) by reflexivity.
  split; [exact H |].
  destruct (X12_connect_passes_the_callers_headers_on es (served "") h H)
    as (h' & H1 & _ & H3 & _ & H5 & H6).
  exists h'. split; [exact H1 |]. split; [| split; [exact H3 |]].
  - rewrite H5 by discriminate. reflexivity.
  - rewrite H6 by discriminate. reflexivity.
Defined.

(* ===================================================================== *)
(** ** Retry values, exceptions, blank lines                              *)
(* ===================================================================== *)

(** X13. The field [retry] with a value of ASCII characters, at most 4300
    of them, has three outcomes. A value that [int] does not convert is
    ignored: no exception, nothing changes. A value that converts to [n]
    milliseconds which a [timedelta] holds replaces the reconnection time
    by [n] milliseconds and changes nothing else. A value that converts to
    more than that raises [OverflowError] and changes nothing. *)
Theorem X13_retry_field_outcome (value : string) (es : EventSource) :
  ascii_text value = true ->
  (String.length value <= 4300)%nat ->
  _process_field "retry" value es =
  match Py.int value with
  | None => (inr tt, es)
  | Some n =>
      if (MIN_DELTA_MS <=? n) && (n <=? MAX_DELTA_MS)
      then (inr tt, set_reconnection_time (n * 1000) es)
      else (inl OverflowError, es)
  end.
Proof.
  intros _ _.
  destruct (Py.int value) as [n|] eqn:E; [| now apply retry_ignored].
  unfold MIN_DELTA_MS, MAX_DELTA_MS.
  destruct (Z.leb_spec (-86399999913600000) n), (Z.leb_spec n 86399999999999999); simpl;
    solve [ apply (retry_replaces es value n E); lia
          | apply (retry_overflows es value n E); lia ].
Qed.

(** The values [3000], [soon] and [-1_500]. *)
Lemma X13_retry_field_outcome_witness :
  ascii_text "3000" = true /\ (String.length "3000" <= 4300)%nat /\
  _process_field "retry" "3000" fresh = (inr tt, set_reconnection_time 3000000 fresh) /\
  _process_field "retry" "soon" fresh = (inr tt, fresh) /\
  _process_field "retry" "-1_500" fresh = (inr tt, set_reconnection_time (-1500000) fresh).
Proof.
  split; [reflexivity |]. split; [simpl; lia |].
  split; [| split].
  - exact (X13_retry_field_outcome "3000" fresh eq_refl ltac:(simpl; lia)).
  - exact (X13_retry_field_outcome "soon" fresh eq_refl ltac:(simpl; lia)).
  - exact (X13_retry_field_outcome "-1_500" fresh eq_refl ltac:(simpl; lia)).
Defined.

(** The loop raises nothing on lines that decode and are no [retry]
    field. *)
Lemma quiet_loop (lines : list string) :
  Forall quiet_line lines ->
  forall es, exists ev, fst (fst (anext_loop lines es)) = inr ev.
Proof.
  induction 1 as [|raw rest [[line Hd] Hq] _ IH]; intros es; [now exists None |].
  unfold field_name_of in Hq. rewrite Hd in Hq. cbv zeta in Hq.
  rewrite (loop_line _ _ rest es Hd). cbv zeta.
  destruct (String.eqb _ "").
  { destruct (_dispatch_event es) as [[m|] es1]; [now exists (Some m) | apply IH]. }
  destruct (Str.starts_with Str.COLON _); [apply IH |].
  destruct (Str.split1 Str.COLON _) as [[name after]|].
  - destruct (_process_field name _ es) as [[e|u] es1] eqn:P; [| apply IH].
    exfalso. apply Hq. f_equal.
    eapply process_field_raises. rewrite P. reflexivity.
  - destruct (_process_field _ "" es) as [[e|u] es1] eqn:P; [| apply IH].
    exfalso. apply Hq. f_equal.
    eapply process_field_raises. rewrite P. reflexivity.
Qed.

(** X14. [__anext__] issues no request and makes no wait, however it
    ends. On an instance without response it raises [ValueError] and
    changes nothing. On an instance with a response whose lines, as the
    reader delivers them, all decode as UTF-8 and hold no [retry] field,
    the processing of the lines raises nothing: the call returns an event
    or [None]. *)
Theorem X14_quiet_lines_raise_nothing (es : EventSource) (w : World) :
  snd (__anext__ es w) = w /\
  (_response es = None -> __anext__ es w = (inl ValueError, es, w)) /\
  (forall response, _response es = Some response ->
     Forall quiet_line (content response) ->
     exists ev, fst (fst (__anext__ es w)) = inr ev).
Proof.
  unfold __anext__. destruct (_response es) as [r|].
  - split; [| split; [discriminate |]].
    + destruct (anext_loop (content r) es) as [[res rest] es1]. reflexivity.
    + intros response [= <-] Hq. destruct (quiet_loop _ Hq es) as [ev Hev].
      exists ev. destruct (anext_loop (content r) es) as [[res rest] es1]. exact Hev.
  - split; [reflexivity |]. split; [reflexivity | discriminate].
Qed.

(** A response of a comment, an unknown field, an id and a data line:
    the call returns the event; and a new instance, which raises. *)
Lemma X14_quiet_lines_raise_nothing_witness :
  let lines := [": hello" +:+ Str.NL; field_line "foo" "bar"; field_line "id" "1";
                field_line "data" "x"; Str.NL] in
  let es := set_response (Some (mkClientResponse 200 lines "http://example.org")) fresh in
  Forall quiet_line lines /\
  (exists ev, fst (fst (__anext__ es (served ""))) = inr ev) /\
  __anext__ fresh (served "") = (inl ValueError, fresh, served "").
Proof.
  intros lines es.
  assert (H : Forall quiet_line lines).
  { repeat constructor; try (eexists; reflexivity); vm_compute; discriminate. }
  split; [exact H |].
  destruct (X14_quiet_lines_raise_nothing es (served "")) as (_ & _ & H3).
  destruct (X14_quiet_lines_raise_nothing fresh (served "")) as (_ & H2 & _).
  split; [exact (H3 _ eq_refl H) | exact (H2 eq_refl)].
Defined.

(** X15. On an instance at rest, with empty type and data buffers and the
    id buffer committed, as it is when made and after every dispatch, a
    blank line dispatches nothing and changes nothing: blank lines at the
    start of a stream or in a row are passed over. *)
Theorem X15_blank_line_at_rest_changes_nothing
    (es : EventSource) (rest : list string) :
  _event_type es = "" -> _event_data es = "" -> _last_event_id es = _event_id es ->
  _dispatch_event es = (None, es) /\
  anext_loop (Str.NL :: rest) es = anext_loop rest es /\
  anext_loop ((Str.RET +:+ Str.NL) :: rest) es = anext_loop rest es /\
  forall es0, _dispatch_event (snd (_dispatch_event es0)) = (None, snd (_dispatch_event es0)).
Proof.
  assert (Hd : forall x, _event_type x = "" -> _event_data x = "" ->
                 _last_event_id x = _event_id x -> _dispatch_event x = (None, x)).
  { intros x H1 H2 H3. unfold _dispatch_event. simpl. rewrite H2. simpl.
    destruct x; simpl in *. subst. reflexivity. }
  intros H1 H2 H3. pose proof (Hd es H1 H2 H3) as D.
  split; [exact D |]. split; [| split].
  - simpl anext_loop. now rewrite D.
  - simpl anext_loop. now rewrite D.
  - intros es0. pose proof (dispatch_state es0) as K. simpl in K.
    apply Hd; intuition congruence.
Qed.

(** A fresh instance and a blank line before the first block. *)
Lemma X15_blank_line_at_rest_changes_nothing_witness :
  _event_type fresh = "" /\ _event_data fresh = "" /\
  _last_event_id fresh = _event_id fresh /\
  anext_loop (Str.NL :: [field_line "data" "x"; Str.NL]) fresh =
  anext_loop [field_line "data" "x"; Str.NL] fresh.
Proof.
  split; [reflexivity |]. split; [reflexivity |]. split; [reflexivity |].
  exact (proj1 (proj2 (X15_blank_line_at_rest_changes_nothing fresh
                         [field_line "data" "x"; Str.NL] eq_refl eq_refl eq_refl))).
Defined.

(* ===================================================================== *)
(** ** From one connection to the next                                    *)
(* ===================================================================== *)

Section Carry.
Import Str StrFacts.

Lemma loop_keeps_kwargs (lines : list string) (es : EventSource) :
  _kwargs (snd (anext_loop lines es)) = _kwargs es.
Proof.
  apply (anext_loop_inv (fun x => _kwargs x = _kwargs es)); [| | reflexivity].
  - intros x Hx. rewrite <- Hx. apply dispatch_state.
  - intros n v x Hx. rewrite <- Hx. apply process_field_frame.
Qed.

(** A block of data lines read into whatever the data buffer holds. *)
Lemma block_event_buffer (values : list string) (rest : list string) (es : EventSource) :
  data_values values ->
  exists m es',
    anext_loop (data_block values ++ rest) es = (inr (Some m), rest, es') /\
    data m = rstrip LF (_event_data es +:+ Spec.data_buffer values) /\
    last_event_id m = _event_id es /\ origin m = _origin es.
Proof.
  intros [Hne Hall]. unfold data_block.
  rewrite <- app_assoc, data_lines by exact Hall.
  pose proof (after_data_buffer values es) as B.
  destruct (dispatch_nonempty (after_data values es))
    as (m & Hm & Hd & _ & _ & Ho & Hid).
  { rewrite B. intros E. apply append_eq_empty in E as [_ E].
    now apply data_buffer_nonempty in E. }
  destruct (after_data_frame values es) as (F1 & _ & F3).
  simpl app. simpl anext_loop.
  destruct (_dispatch_event (after_data values es)) as [[m'|] es'] eqn:D;
    simpl in Hm; [| discriminate].
  injection Hm as ->. exists m, es'. repeat split; congruence.
Qed.

End Carry.

(** X16. An id that came in a block without data is committed all the
    same: after the line [id: x] and a blank line no event is returned,
    the last event id of the instance is [x], and the next [_connect]
    sends [x] in the header [Last-Event_ID] of its request. *)
Theorem X16_id_without_data_is_sent_on_the_next_connect
    (x : string) (es : EventSource) (w : World) (h : gmap string string) :
  plain x -> _event_data es = "" ->
  _kwargs es !! "headers" = Some (VDict h) ->
  let es1 := snd (anext_loop [field_line "id" x; Str.NL] es) in
  fst (fst (anext_loop [field_line "id" x; Str.NL] es)) = inr None /\
  _last_event_id es1 = x /\
  exists h', last (headers_sent (snd (_connect es1 w))) = Some h' /\
             h' !! "Last-Event_ID" = Some x.
Proof.
  intros Hx He Hk es1.
  assert (Hn : wire_name "id") by (repeat split; try reflexivity; discriminate).
  assert (Hloop : anext_loop [field_line "id" x; Str.NL] es =
                  (inr None, [], set_event_type "" (set_last_event_id x (set_event_id x es)))).
  { rewrite (field_line_step "id" x [Str.NL] es Hn Hx).
    change (_process_field "id" x es) with (inr tt : result unit, set_event_id x es).
    simpl anext_loop. unfold _dispatch_event. simpl. rewrite He. reflexivity. }
  assert (Hk1 : _kwargs es1 !! "headers" = Some (VDict h)).
  { unfold es1. now rewrite loop_keeps_kwargs. }
  unfold es1 in *. rewrite Hloop in *. simpl in Hk1. simpl fst. simpl snd.
  split; [reflexivity |]. split; [reflexivity |].
  match goal with |- context [_connect ?e w] => set (es2 := e) in * end.
  destruct (connect_request es2 w h Hk1) as (Hreq & _).
  unfold headers_sent. rewrite Hreq, omap_app. simpl.
  rewrite lookup_insert_eq. eexists. split; [apply last_snoc |].
  rewrite lookup_insert_ne by discriminate. apply lookup_insert_eq.
Qed.

(** The id [42] in a block of its own, then a connect. *)
Lemma X16_id_without_data_is_sent_on_the_next_connect_witness :
  plain "42" /\ _event_data fresh = "" /\
  _last_event_id (snd (anext_loop [field_line "id" "42"; Str.NL] fresh)) = "42" /\
  exists h', last (headers_sent (snd (_connect
               (snd (anext_loop [field_line "id" "42"; Str.NL] fresh)) (served ""))))
             = Some h' /\ h' !! "Last-Event_ID" = Some "42".
Proof.
  assert (Hp : plain "42") by (repeat split; try reflexivity; discriminate).
  split; [exact Hp |]. split; [reflexivity |].
  destruct (X16_id_without_data_is_sent_on_the_next_connect "42" fresh (served "") ∅
              Hp eq_refl eq_refl) as (_ & H2 & H3).
  split; [exact H2 | exact H3].
Defined.

(** X17. [_connect] does not empty the buffers: what an earlier
    connection left in the data buffer, in the id buffer and as
    reconnection time is there after the connect, and the first block of
    the new response gives an event whose data starts with what the data
    buffer held, whose id is the id buffer and whose origin is that of the
    new response. *)
Theorem X17_connect_keeps_the_buffers
    (es : EventSource) (w : World) (h : gmap string string)
    (response : ClientResponse) (later : list (result ClientResponse))
    (values : list string) (rest : list string) :
  _kwargs es !! "headers" = Some (VDict h) ->
  script w = inr response :: later ->
  status response < 400 ->
  content response = (data_block values ++ rest)%list ->
  data_values values ->
  let es1 := snd (fst (_connect es w)) in
  let w1 := snd (_connect es w) in
  _event_data es1 = _event_data es /\ _event_id es1 = _event_id es /\
  _reconnection_time es1 = _reconnection_time es /\
  exists m,
    fst (fst (__anext__ es1 w1)) = inr (Some m) /\
    data m = Str.rstrip Str.LF (_event_data es +:+ Spec.data_buffer values) /\
    last_event_id m = _event_id es /\
    origin m = Some (real_url_origin response).
Proof.
  intros Hk Hs Hst Hc Hv es1 w1.
  pose proof (connect_frame es w) as F. fold es1 in F. simpl in F.
  destruct F as (_ & _ & _ & F4 & _ & F6 & _ & F8).
  pose proof (connect_accepted es w h response later Hk Hs Hst) as A.
  assert (Hr : _response es1 = Some response /\
               _origin es1 = Some (real_url_origin response)).
  { unfold es1. destruct (_connect es w) as [[r e] w']. simpl. tauto. }
  destruct Hr as [Hr Ho].
  split; [exact F8 |]. split; [exact F6 |]. split; [exact F4 |].
  destruct (block_event_buffer values rest es1 Hv) as (m & es2 & Hloop & Hd & Hid & Hor).
  exists m. unfold __anext__. rewrite Hr, Hc, Hloop. simpl.
  repeat split; congruence.
Qed.

(** The value [a] left over from a connection that ended, and a new
    response with the block [data: b]: the event carries ["a\nb"]. *)
Lemma X17_connect_keeps_the_buffers_witness :
  let es := snd (_process_field "data" "a" fresh) in
  let response := mkClientResponse 200 (data_block ["b"] ++ []) "http://example.org" in
  let w := mkWorld [inr response] [] [] in
  data_values ["b"] /\
  exists m, fst (fst (__anext__ (snd (fst (_connect es w))) (snd (_connect es w))))
            = inr (Some m) /\
            data m = "a" +:+ Str.NL +:+ "b".
Proof.
  intros es response w.
  assert (Hv : data_values ["b"]).
  { repeat constructor; try discriminate; reflexivity. }
  split; [exact Hv |].
  destruct (X17_connect_keeps_the_buffers es w ∅ response [] ["b"] []
              eq_refl eq_refl ltac:(simpl; lia) eq_refl Hv)
    as (_ & _ & _ & m & H1 & H2 & _).
  exists m. split; [exact H1 | exact H2].
Defined.

(* ===================================================================== *)
(** ** The end of a line                                                  *)
(* ===================================================================== *)

Section LineEnd.
Import Str StrFacts.





End LineEnd.




(* ===================================================================== *)
(** ** The type of an event                                               *)
(* ===================================================================== *)

Section FieldLines.

(** The lines of a run of fields, as a server writes them, do to the
    instance what the fields do, when none of them is a [retry] field. *)
Lemma field_lines_run (fields : list (string * string)) (rest : list string) :
  Forall (fun f => wire_name (fst f) /\ plain (snd f) /\ fst f <> "retry") fields ->
  forall es,
    anext_loop (map (fun f => field_line (fst f) (snd f)) fields ++ rest) es =
    anext_loop rest (after_fields fields es).
Proof.
  induction 1 as [|[n v] fields (Hn & Hv & Hr) _ IH]; intros es; [reflexivity |].
  simpl fst in *. simpl snd in *.
  rewrite map_cons, <- app_comm_cons. cbn [fst snd].
  rewrite (field_line_step n v _ es Hn Hv).
  destruct (_process_field n v es) as [[e|u] es1] eqn:P.
  - exfalso. apply Hr. eapply process_field_raises. rewrite P. reflexivity.
  - rewrite IH. unfold after_fields. cbn [fold_left fst snd]. now rewrite P.
Qed.

End FieldLines.

(** The claim of C10 fails on the block [event: foo], [event:],
    [data: x]: an event field did set a type that is not empty, and the
    event comes out with [type] [None] and [message] empty all the same,
    the later field having overwritten the earlier. *)
Lemma C10_an_overwritten_type_does_not_count :
  let fields := [("event", "foo"); ("event", ""); ("data", "x")] in
  let lines := [field_line "event" "foo"; "event:" +:+ Str.NL;
                field_line "data" "x"; Str.NL] in
  Spec.no_type_set fields = false /\
  option_map type (fst (_dispatch_event (after_fields fields fresh))) = Some None /\
  match fst (loop_result lines fresh) with
  | inr (Some m) => type m = None /\ message m = ""
  | _ => False
  end.
Proof. vm_compute. repeat split. Qed.

(** C10, as the code has it. For the event a dispatch emits after a run
    of fields, the run starting right after a dispatch or on a new
    instance: [message] is the value of the last [event] field of the
    run, the empty text when the run has none; [type] is [None] exactly
    when that value is empty, never the empty text, and that value
    otherwise, so an unlabeled event differs from one labeled [message];
    and the dispatch leaves the type buffer empty for the next run. When
    the fields come as lines of a stream, none of them a [retry] field,
    that event is what the loop of [__anext__] returns at the blank line
    after them. *)
Theorem C10_type_is_the_last_event_field
    (start : EventSource) (fields : list (string * string))
    (m : MessageEvent) (es' : EventSource) :
  (exists es0, start = snd (_dispatch_event es0)) \/
  (exists u o r s k, start = __init__ u o r s k) ->
  _dispatch_event (after_fields fields start) = (Some m, es') ->
  message m = last_event fields /\
  (type m = None <-> last_event fields = "") /\
  (forall t, type m = Some t <-> (t = last_event fields /\ t <> "")) /\
  (type m = Some "message" <-> last_event fields = "message") /\
  _event_type es' = "" /\
  (Forall (fun f => wire_name (fst f) /\ plain (snd f) /\ fst f <> "retry") fields ->
   forall rest,
     anext_loop (map (fun f => field_line (fst f) (snd f)) fields ++ Str.NL :: rest) start
     = (inr (Some m), rest, es')).
Proof.
  intros Hstart Hd.
  assert (H0 : _event_type start = "").
  { destruct Hstart as [[es0 ->] | (u & o & r & s & k & ->)]; [| reflexivity].
    apply dispatch_state. }
  assert (Ht : _event_type (after_fields fields start) = last_event fields).
  { rewrite after_fields_type, H0. reflexivity. }
  pose proof (dispatch_event_type _ _ _ Hd) as K. rewrite Ht in K.
  pose proof (dispatch_state (after_fields fields start)) as S.
  rewrite Hd in S. simpl in S.
  destruct K as (K1 & K2 & K3 & K4). destruct S as (_ & S2 & _).
  split; [exact K1 |]. split; [exact K2 |]. split; [exact K3 |].
  split; [exact K4 |]. split; [exact S2 |].
  intros Hw rest. rewrite (field_lines_run fields _ Hw).
  simpl anext_loop. now rewrite Hd.
Qed.

(** Two blocks one after the other on a new instance: the first is
    labeled [foo], the second has no [event] field and comes out
    unlabeled. *)
Lemma C10_type_is_the_last_event_field_witness :
  let first := [("event", "foo"); ("data", "x")] in
  let second := [("data", "y")] in
  exists m1 es1 m2 es2,
    _dispatch_event (after_fields first fresh) = (Some m1, es1) /\
    type m1 = Some "foo" /\ message m1 = "foo" /\
    _dispatch_event (after_fields second (snd (_dispatch_event (after_fields first fresh))))
      = (Some m2, es2) /\
    type m2 = None /\ message m2 = "" /\
    anext_loop [field_line "event" "foo"; field_line "data" "x"; Str.NL] fresh
      = (inr (Some m1), [], es1).
Proof.
  intros first second.
  assert (H1 : exists m1 es1,
             _dispatch_event (after_fields first fresh) = (Some m1, es1)).
  { vm_compute. do 2 eexists. reflexivity. }
  assert (H2 : exists m2 es2,
             _dispatch_event (after_fields second
               (snd (_dispatch_event (after_fields first fresh)))) = (Some m2, es2)).
  { vm_compute. do 2 eexists. reflexivity. }
  destruct H1 as (m1 & es1 & E1). destruct H2 as (m2 & es2 & E2).
  assert (Hnew : (exists es0, fresh = snd (_dispatch_event es0)) \/
                 (exists u o r s k, fresh = __init__ u o r s k)).
  { right. unfold fresh. do 5 eexists. reflexivity. }
  assert (Hnext : (exists es0, snd (_dispatch_event (after_fields first fresh))
                               = snd (_dispatch_event es0)) \/
                  (exists u o r s k, snd (_dispatch_event (after_fields first fresh))
                                     = __init__ u o r s k)).
  { left. eexists. reflexivity. }
  destruct (C10_type_is_the_last_event_field fresh first m1 es1 Hnew E1)
    as (A1 & _ & A3 & _ & _ & A6).
  destruct (C10_type_is_the_last_event_field _ second m2 es2 Hnext E2)
    as (B1 & B2 & _).
  exists m1, es1, m2, es2.
  split; [exact E1 |]. split; [apply A3; split; [reflexivity | discriminate] |].
  split; [exact A1 |]. split; [exact E2 |]. split; [apply B2; reflexivity |].
  split; [exact B1 |].
  apply (A6 ltac:(repeat constructor; try reflexivity; discriminate) []).
Defined.

